(** * Kubernetes initializer: admission gate, queue advancer and watch loop

    A shallow embedding of
      - [labelizer/rejection.py], [labelizer/resource_handler.py],
        [labelizer/label_controller.py]  (module [Labelizer]), and
      - [ai2/kubernetes/initializer/resource_handler.py],
        [ai2/kubernetes/initializer/async_resource_handler.py]
        (module [Initializer]).

    Python objects are references: the item handed to a handler is the very
    object the controller later writes to and sends.  The embedding therefore
    keeps an explicit store of items and of [V1Initializers] objects, and a
    handler is a store transformer that ends by returning a reference or by
    raising.  Calls to the Kubernetes API are recorded in a trace. *)

From Stdlib Require Import ZArith.
From stdpp Require Import gmap strings list fin_maps.

Open Scope string_scope.
Open Scope list_scope.

(** ** Objects, exceptions and the store *)

Module Model.

Abbreviation loc := positive.

(** [kubernetes.client.models.v1_status.V1Status], the fields the code sets. *)
Record V1Status := mkV1Status {
  message : string;
  reason : string;
  code : Z;
  details : option string;
  status : string
}.

(** The exceptions that occur in the modelled code.  [KeyboardInterrupt]
    stands for the exceptions that derive from [BaseException] only. *)
Inductive exn :=
| Rejection (st : V1Status)
| AttributeError (attr : string)
| TypeError (msg : string)
| NameError (var : string)
| UnboundLocalError (var : string)
| ReadTimeoutError
| ApiException (http : Z)
| KeyboardInterrupt
| OtherError (msg : string).

(** [isinstance(e, Exception)]. *)
Definition is_Exception (e : exn) : bool :=
  match e with
  | KeyboardInterrupt => false
  | _ => true
  end.

Definition is_ReadTimeoutError (e : exn) : bool :=
  match e with
  | ReadTimeoutError => true
  | _ => false
  end.

Record V1Initializer := mkV1Initializer { init_name : string }.

(** [metadata.initializers]: [pending] may be [None]; [result] is written on
    rejection only. *)
Record V1Initializers := mkV1Initializers {
  pending : option (list V1Initializer);
  result : option V1Status
}.

(** [metadata]: the initializers object is held by reference ([None] when
    the field is absent). *)
Record V1ObjectMeta := mkV1ObjectMeta {
  name : string;
  namespace : string;
  labels : list (string * string);
  initializers : option loc
}.

(** A listed resource (pod, job, ...).  [spec] stands for the rest of the
    object, which only handlers look at. *)
Record Item := mkItem {
  metadata : V1ObjectMeta;
  spec : string
}.

(** The store: items and initializers objects, by reference.  A reference
    that is not in the store behaves as [None]. *)
Record heap := mkHeap {
  items : gmap loc Item;
  inits : gmap loc V1Initializers
}.

(** What goes over the wire as [body]: the object graph below the item at
    the moment of the call, and the reference it was read from. *)
Record Body := mkBody {
  b_ref : loc;
  b_item : Item;
  b_initializers : option V1Initializers
}.

Definition deref_initializers (h : heap) (o : option loc) : option V1Initializers :=
  match o with
  | None => None
  | Some li => inits h !! li
  end.

Definition snapshot (h : heap) (l : loc) (it : Item) : Body :=
  {| b_ref := l; b_item := it;
     b_initializers := deref_initializers h (initializers (metadata it)) |}.

(** The pending queue of an item as a plain list: an absent initializers
    field and an absent pending list both read as the empty queue. *)
Definition queue_of (h : heap) (it : Item) : list V1Initializer :=
  match deref_initializers h (initializers (metadata it)) with
  | Some ini => match pending ini with Some q => q | None => [] end
  | None => []
  end.

Definition body_queue (b : Body) : list V1Initializer :=
  match b_initializers b with
  | Some ini => match pending ini with Some q => q | None => [] end
  | None => []
  end.

Definition body_result (b : Body) : option V1Status :=
  match b_initializers b with
  | Some ini => result ini
  | None => None
  end.

(** The Kubernetes client functions the handlers are constructed with. *)
Inductive list_method :=
| list_pod_for_all_namespaces
| list_service_for_all_namespaces
| list_config_map_for_all_namespaces
| list_job_for_all_namespaces
| list_deployment_for_all_namespaces
| list_daemon_set_for_all_namespaces
| list_cron_job_for_all_namespaces.

Inductive update_method :=
| patch_namespaced_pod
| patch_namespaced_job
| patch_namespaced_deployment
| patch_namespaced_daemon_set
| replace_namespaced_pod
| replace_namespaced_service
| replace_namespaced_config_map
| replace_namespaced_job
| replace_namespaced_deployment
| replace_namespaced_daemon_set
| replace_namespaced_cron_job.

(** HTTP semantics of an update function: [patch_*] sends a PATCH (merge),
    [replace_*] sends a PUT (full replace). *)
Inductive update_semantics := PartialMerge | FullReplace.

Definition semantics_of (m : update_method) : update_semantics :=
  match m with
  | patch_namespaced_pod | patch_namespaced_job
  | patch_namespaced_deployment | patch_namespaced_daemon_set => PartialMerge
  | _ => FullReplace
  end.

#[global] Instance V1Status_eq_dec : EqDecision V1Status.
Proof. solve_decision. Defined.
#[global] Instance exn_eq_dec : EqDecision exn.
Proof. solve_decision. Defined.
#[global] Instance V1Initializer_eq_dec : EqDecision V1Initializer.
Proof. solve_decision. Defined.
#[global] Instance update_semantics_eq_dec : EqDecision update_semantics.
Proof. solve_decision. Defined.

End Model.

Import Model.

(** ** labelizer *)

Module Labelizer.

(** *** rejection.py *)

(** Python truthiness of the [reason] argument: [None] and the empty string
    are falsy. *)
Definition truthy_reason (r : option string) : bool :=
  match r with
  | None => false
  | Some s => negb (bool_decide (s = ""))
  end.

(** [Rejection.__init__(message, reason=None, code=400, details=None)]:
    the status the exception carries. *)
Definition Rejection_init (message : string) (reason : option string)
    (code : Z) (details : option string) : V1Status :=
  let reason :=
    if truthy_reason reason
    then match reason with Some s => s | None => message end
    else message in
  {| Model.message := message; Model.reason := reason; Model.code := code;
     Model.details := details; Model.status := "Failure" |}.

Definition default_code : Z := 400.

(** *** Traces and the controller's monad *)

Inductive event :=
| EvList (m : list_method)
| EvHandle (l : loc)
| EvUpdate (m : update_method) (name namespace : string) (body : Body).

(** The API server as the controller sees it: what the list call answers,
    and whether an update call raises. *)
Record world := mkWorld {
  list_response : list_method -> list loc + exn;
  update_response : update_method -> string -> string -> Body -> option exn
}.

(** A computation reads and writes the store, appends to the trace and
    either yields a value or raises. *)
Definition M (A : Type) : Type := heap -> heap * list event * (A + exn).

Definition ret {A} (a : A) : M A := fun h => (h, [], inl a).
Definition raise {A} (e : exn) : M A := fun h => (h, [], inr e).
Definition bind {A B} (m : M A) (k : A -> M B) : M B := fun h =>
  match m h with
  | (h1, t1, inl a) =>
      match k a h1 with
      | (h2, t2, r) => (h2, t1 ++ t2, r)
      end
  | (h1, t1, inr e) => (h1, t1, inr e)
  end.
Definition emit (ev : event) : M unit := fun h => (h, [ev], inl tt).
Definition get : M heap := fun h => (h, [], inl h).

Notation "x <- m ;; k" := (bind m (fun x => k))
  (at level 100, m at next level, right associativity).
Notation "m ;;; k" := (bind m (fun _ => k))
  (at level 100, right associativity).

(** [try: body  except Rejection as rejection: handler]. *)
Definition try_except_Rejection {A} (body : M A) (handler : V1Status -> M A) : M A :=
  fun h =>
    match body h with
    | (h1, t1, inr (Rejection st)) =>
        match handler st h1 with
        | (h2, t2, r) => (h2, t1 ++ t2, r)
        end
    | other => other
    end.

(** Attribute reads and writes.  Reading an attribute of [None] raises
    [AttributeError]. *)
Definition read_item (l : loc) : M Item := fun h =>
  match items h !! l with
  | Some it => (h, [], inl it)
  | None => (h, [], inr (AttributeError "metadata"))
  end.

(** [x.metadata.initializers.<attr> = ...]: the object the write goes to. *)
Definition initializers_ref (l : loc) (attr : string) : M loc :=
  it <- read_item l ;;
  match initializers (metadata it) with
  | Some li =>
      h <- get ;;
      match inits h !! li with
      | Some _ => ret li
      | None => raise (AttributeError attr)
      end
  | None => raise (AttributeError attr)
  end.

Definition set_result_at (li : loc) (st : V1Status) : M unit := fun h =>
  match inits h !! li with
  | Some ini =>
      ({| items := items h;
          inits := <[li := {| pending := pending ini; result := Some st |}]> (inits h) |},
       [], inl tt)
  | None => (h, [], inr (AttributeError "result"))
  end.

Definition set_pending_at (li : loc) (q : list V1Initializer) : M unit := fun h =>
  match inits h !! li with
  | Some ini =>
      ({| items := items h;
          inits := <[li := {| pending := Some q; result := result ini |}]> (inits h) |},
       [], inl tt)
  | None => (h, [], inr (AttributeError "pending"))
  end.

(** [initializers.pending[1:]] for the captured [initializers] object. *)
Definition pending_rest (initializers : option loc) : M (list V1Initializer) := fun h =>
  match deref_initializers h initializers with
  | Some ini =>
      match pending ini with
      | Some q => (h, [], inl (tail q))
      | None => (h, [], inr (TypeError "'NoneType' object is not subscriptable"))
      end
  | None => (h, [], inr (AttributeError "pending"))
  end.

(** *** resource_handler.py *)

(** What a call of [handle_item] does: it may change the store through the
    reference it is given, and returns a reference or raises. *)
Definition handler_fn := loc -> heap -> heap * (loc + exn).

Record ResourceHandler := mkResourceHandler {
  handler_name : string;
  list_item_for_all_namespaces : list_method;
  patch_namespaced_item : update_method;
  handle_item : handler_fn
}.

(** Attribute lookup on a listed item, by attribute name. *)
Inductive attr_value :=
| AMetadata (m : V1ObjectMeta)
| ASpec (s : string).

Definition getattr (it : Item) (a : string) : attr_value + exn :=
  if bool_decide (a = "metadata") then inl (AMetadata (metadata it))
  else if bool_decide (a = "spec") then inl (ASpec (spec it))
  else inr (AttributeError a).

(** [ResourceHandler.handle_item], the method subclasses are to override:
[[
    raise Rejection(
        message='Handler not implemented; rejecting {}.'.format(item.metadtata.name),
        reason='RejectAll')
]]
    The arguments of [Rejection] are evaluated before it is raised. *)
Definition default_handle_item : handler_fn := fun l h =>
  match items h !! l with
  | None => (h, inr (AttributeError "metadtata"))
  | Some it =>
      match getattr it "metadtata" with
      | inr e => (h, inr e)
      | inl (AMetadata m) =>
          (h, inr (Rejection (Rejection_init
                     ("Handler not implemented; rejecting " +:+ name m +:+ ".")
                     (Some "RejectAll") default_code None)))
      | inl _ => (h, inr (AttributeError "name"))
      end
  end.

(** [ResourceHandler.list_all_items]. *)
Definition list_all_items (w : world) (self : ResourceHandler) : M (list loc) :=
  emit (EvList (list_item_for_all_namespaces self)) ;;;
  match list_response w (list_item_for_all_namespaces self) with
  | inl ls => ret ls
  | inr e => raise e
  end.

(** [ResourceHandler.patch_item]:
    [self.patch_namespaced_item(name=item.metadata.name,
                                namespace=item.metadata.namespace, body=item)]. *)
Definition patch_item (w : world) (self : ResourceHandler) (item : loc) : M unit :=
  it <- read_item item ;;
  h <- get ;;
  let body := snapshot h item it in
  let n := name (metadata it) in
  let ns := namespace (metadata it) in
  emit (EvUpdate (patch_namespaced_item self) n ns body) ;;;
  match update_response w (patch_namespaced_item self) n ns body with
  | None => ret tt
  | Some e => raise e
  end.

(** The constructors of the subclasses; each keeps the inherited
    [handle_item] until a child class overrides it. *)
Definition PodHandler : ResourceHandler :=
  {| handler_name := "pod";
     list_item_for_all_namespaces := list_pod_for_all_namespaces;
     patch_namespaced_item := patch_namespaced_pod;
     handle_item := default_handle_item |}.

Definition JobHandler : ResourceHandler :=
  {| handler_name := "job";
     list_item_for_all_namespaces := list_job_for_all_namespaces;
     patch_namespaced_item := patch_namespaced_job;
     handle_item := default_handle_item |}.

(** [DeploymentHandler.__init__] binds [extensions_client] and then reads
    [batch_client], which is not defined in that scope: the constructor
    raises instead of returning a handler. *)
Definition DeploymentHandler : exn + ResourceHandler :=
  inl (NameError "batch_client").

Definition DaemonSetHandler : ResourceHandler :=
  {| handler_name := "daemonset";
     list_item_for_all_namespaces := list_daemon_set_for_all_namespaces;
     patch_namespaced_item := patch_namespaced_daemon_set;
     handle_item := default_handle_item |}.

(** A child class: the parent with [handle_item] overridden. *)
Definition override (parent : ResourceHandler) (f : handler_fn) : ResourceHandler :=
  {| handler_name := handler_name parent;
     list_item_for_all_namespaces := list_item_for_all_namespaces parent;
     patch_namespaced_item := patch_namespaced_item parent;
     handle_item := f |}.

(** *** label_controller.py *)

Record LabelController := mkLabelController {
  initializer_name : string;
  handler : ResourceHandler
}.

(** The admission gate, lines 39-40:
[[
    initializers and initializers.pending
        and initializers.pending[0].name == self.initializer_name
]]
    A model object is truthy, [None] and the empty list are falsy. *)
Definition gate (h : heap) (initializers : option loc) (initializer_name : string) : bool :=
  match initializers with
  | None => false
  | Some li =>
      match inits h !! li with
      | None => false
      | Some ini =>
          match pending ini with
          | None => false
          | Some [] => false
          | Some (p :: _) => bool_decide (init_name p = initializer_name)
          end
      end
  end.

(** [self.handler.handle_item(item)] as a computation. *)
Definition call_handle_item (self : LabelController) (item : loc) : M loc :=
  emit (EvHandle item) ;;;
  fun h =>
    match handle_item (handler self) item h with
    | (h1, r) => (h1, [], r)
    end.

(** The body of the [for item in result.items] loop, lines 38-53. *)
Definition loop_body (w : world) (self : LabelController) (item : loc) : M unit :=
  it <- read_item item ;;
  let initializers := initializers (metadata it) in
  h <- get ;;
  if gate h initializers (initializer_name self) then
    updated_item <-
      try_except_Rejection
        (call_handle_item self item)
        (fun rejection =>
           (* updated_item = item
              updated_item.metadata.initializers.result = rejection.status *)
           li <- initializers_ref item "result" ;;
           set_result_at li rejection ;;;
           ret item) ;;
    (* updated_item.metadata.initializers.pending = initializers.pending[1:] *)
    rest <- pending_rest initializers ;;
    li <- initializers_ref updated_item "pending" ;;
    set_pending_at li rest ;;;
    patch_item w (handler self) updated_item
  else ret tt.

Fixpoint for_each (body : loc -> M unit) (ls : list loc) : M unit :=
  match ls with
  | [] => ret tt
  | l :: ls' => body l ;;; for_each body ls'
  end.

(** [LabelController.handle_update]. *)
Definition handle_update (w : world) (self : LabelController) : M unit :=
  result <- list_all_items w (handler self) ;;
  for_each (loop_body w self) result.

(** *** Notions used to state the properties *)

(** The gate as the specification words it, over the queue read as a list. *)
Definition isEligible (queue : list V1Initializer) (initializerName : string) : bool :=
  match queue with
  | [] => false
  | p :: _ => bool_decide (init_name p = initializerName)
  end.

Definition trace_of {A} (x : heap * list event * A) : list event := snd (fst x).

(** The block after the [try] statement, lines 51-53, for the captured
    [initializers] reference and the chosen [updated_item]. *)
Definition advance_block (w : world) (self : LabelController)
    (initializers : option loc) (updated_item : loc) : M unit :=
  rest <- pending_rest initializers ;;
  li <- initializers_ref updated_item "pending" ;;
  set_pending_at li rest ;;;
  patch_item w (handler self) updated_item.

Definition update_outcome (w : world) (m : update_method) (n ns : string) (b : Body)
    : unit + exn :=
  match update_response w m n ns b with
  | None => inl tt
  | Some e => inr e
  end.

Definition after_handle (l : loc) (x : heap * list event * (unit + exn))
    : heap * list event * (unit + exn) :=
  let '(h2, t, r) := x in (h2, EvHandle l :: t, r).

Definition updates_through (m0 : update_method) (ev : event) : Prop :=
  match ev with
  | EvUpdate m _ _ _ => m = m0
  | _ => True
  end.

Definition traces_sat {A} (P : event -> Prop) (m : M A) : Prop :=
  forall h, Forall P (trace_of (m h)).

Definition ineligible (h : heap) (it : Item) (initializer_name : string) : Prop :=
  match queue_of h it with
  | [] => True
  | p :: _ => init_name p <> initializer_name
  end.

End Labelizer.

(** ** ai2.kubernetes.initializer *)

Module Initializer.

(** *** resource_handler.py *)

Record ResourceHandler := mkResourceHandler {
  name : string;
  _list_all_items : list_method;
  _update_item : update_method;
  _request_timeout_seconds : Z
}.

(** [ResourceHandler(name, list_all_items, update_item)] with the default
    [request_timeout_seconds=30]. *)
Definition ResourceHandler_init (name : string) (list_all_items : list_method)
    (update_item : update_method) : ResourceHandler :=
  {| name := name; _list_all_items := list_all_items;
     _update_item := update_item; _request_timeout_seconds := 30 |}.

Definition pod_handler : ResourceHandler :=
  ResourceHandler_init "pod" list_pod_for_all_namespaces replace_namespaced_pod.
Definition service_handler : ResourceHandler :=
  ResourceHandler_init "service" list_service_for_all_namespaces replace_namespaced_service.
Definition config_map_handler : ResourceHandler :=
  ResourceHandler_init "configmap" list_config_map_for_all_namespaces
    replace_namespaced_config_map.
Definition job_handler : ResourceHandler :=
  ResourceHandler_init "job" list_job_for_all_namespaces replace_namespaced_job.
Definition deployment_handler : ResourceHandler :=
  ResourceHandler_init "deployment" list_deployment_for_all_namespaces
    replace_namespaced_deployment.
Definition daemon_set_handler : ResourceHandler :=
  ResourceHandler_init "daemonset" list_daemon_set_for_all_namespaces
    replace_namespaced_daemon_set.
Definition cron_job_handler : ResourceHandler :=
  ResourceHandler_init "cronjob" list_cron_job_for_all_namespaces replace_namespaced_cron_job.

Definition factories : list ResourceHandler :=
  [pod_handler; service_handler; config_map_handler; job_handler;
   deployment_handler; daemon_set_handler; cron_job_handler].

(** The keyword arguments of a call of [self._list_all_items]; the
    [callback] argument is always [handle_response] itself. *)
Record list_call := mkListCall {
  fn : list_method;
  include_uninitialized : bool;
  watch : bool;
  _request_timeout : option Z;
  _preload_content : bool
}.

(** One decoded line of the watch stream: [event['type']] and
    [event['object']]. *)
Record change_event := mkEvent {
  ev_type : string;
  ev_object : Item
}.

(** How [iter_resp_lines(response)] stops: the stream ends, or reading (or
    decoding) the next line raises. *)
Inductive ending :=
| EndOfStream
| StreamRaises (e : exn).

Record response := mkResponse {
  lines : list change_event;
  ending_of : ending
}.

(** What the watcher does to the outside. *)
Inductive event :=
| ItemCallback (item : Item)
| ErrorCallback (e : exn)
| LogDebug (msg : string)
| Stdout (msg : string)
| Close
| ReleaseConn
| ListCall (c : list_call)
| UpdateCall (m : update_method) (name namespace : string) (body : Item).

(** [ResourceHandler.update_item]. *)
Definition update_item (self : ResourceHandler) (item : Item) : event :=
  UpdateCall (_update_item self) (Model.name (metadata item)) (namespace (metadata item)) item.

(** The watch request of [async_list_items], issued in two places with the
    same arguments. *)
Definition watch_request (self : ResourceHandler) : list_call :=
  {| fn := _list_all_items self;
     include_uninitialized := true;
     watch := true;
     _request_timeout := Some (_request_timeout_seconds self);
     _preload_content := false |}.

Definition is_delivered (event_type : string) : bool :=
  bool_decide (event_type = "MODIFIED") || bool_decide (event_type = "ADDED").

Definition ignored_message (event_type : string) (item : Item) : string :=
  "Ignored event type " +:+ event_type +:+ " for item "
    +:+ namespace (metadata item) +:+ ":" +:+ Model.name (metadata item).

Section Watch.

(** The callbacks are the caller's: they act on a state of the caller and
    may raise. *)
Variable St : Type.
Variable item_callback : Item -> St -> St * option exn.
Variable error_callback : exn -> St -> St * option exn.

(** The [for line in iter_resp_lines(response)] loop of [handle_response],
    lines 72-80.  [item] is the local variable of that name: it is bound by
    the first delivered event only, and the [else] branch reads it. *)
Fixpoint read_lines (ls : list change_event) (fin : ending) (item : option Item) (s : St)
    : St * list event * option exn :=
  match ls with
  | [] =>
      match fin with
      | EndOfStream => (s, [], None)
      | StreamRaises e => (s, [], Some e)
      end
  | ev :: rest =>
      let event_type := ev_type ev in
      if is_delivered event_type then
        let item := ev_object ev in
        match item_callback item s with
        | (s1, Some e) => (s1, [ItemCallback item], Some e)
        | (s1, None) =>
            match read_lines rest fin (Some item) s1 with
            | (s2, t, r) => (s2, ItemCallback item :: t, r)
            end
        end
      else
        match item with
        | None => (s, [], Some (UnboundLocalError "item"))
        | Some it =>
            match read_lines rest fin item s with
            | (s2, t, r) => (s2, LogDebug (ignored_message event_type it) :: t, r)
            end
        end
  end.

(** The [except] clauses, lines 81-87, applied to what the loop ended with. *)
Definition except_clauses (r : option exn) (s : St) : St * list event * option exn :=
  match r with
  | None => (s, [], None)
  | Some e =>
      if is_ReadTimeoutError e then (s, [LogDebug "Request timeout; ignoring."], None)
      else if is_Exception e then
        match error_callback e s with
        | (s1, r1) => (s1, [ErrorCallback e], r1)
        end
      else (s, [], Some e)
  end.

(** [handle_response(response)], lines 66-97: loop, [except] clauses,
    [finally] block, and then the new watch request, which is reached
    whenever no exception is left pending. *)
Definition handle_response (self : ResourceHandler) (resp : response) (s : St)
    : St * list event * option exn :=
  match read_lines (lines resp) (ending_of resp) None s with
  | (s1, t1, r1) =>
      match except_clauses r1 s1 with
      | (s2, t2, r2) =>
          let finally := [Close; ReleaseConn] in
          match r2 with
          | Some e => (s2, t1 ++ t2 ++ finally, Some e)
          | None => (s2, t1 ++ t2 ++ finally ++ [ListCall (watch_request self)], None)
          end
      end
  end.

(** [async_list_items]: the first watch request. *)
Definition async_list_items (self : ResourceHandler) : list event :=
  [ListCall (watch_request self)].

(** The client library answers every watch request by calling the callback
    with the response; [resps] are the responses of the successive requests.
    A callback that lets an exception escape ends the chain. *)
Fixpoint watch_loop (self : ResourceHandler) (resps : list response) (s : St)
    : St * list event * option exn :=
  match resps with
  | [] => (s, [], None)
  | resp :: rest =>
      match handle_response self resp s with
      | (s1, t1, Some e) => (s1, t1, Some e)
      | (s1, t1, None) =>
          match watch_loop self rest s1 with
          | (s2, t2, r) => (s2, t1 ++ t2, r)
          end
      end
  end.

(** *** async_resource_handler.py *)

(** [initializer_controller.handle_single_item(resource_controller, item)];
    the controller class is not part of the sources at hand. *)
Variable handle_single_item : Item -> St -> St * option exn.

Definition seen_message (event_type : string) (item : Item) : string :=
  event_type +:+ " for object name " +:+ Model.name (metadata item).

(** The loop of [AsyncResourceHandler.async_process_items.handle_response],
    lines 50-59; here [item] is assigned for every event. *)
Fixpoint process_lines (ls : list change_event) (fin : ending) (s : St)
    : St * list event * option exn :=
  match ls with
  | [] =>
      match fin with
      | EndOfStream => (s, [], None)
      | StreamRaises e => (s, [], Some e)
      end
  | ev :: rest =>
      let event_type := ev_type ev in
      let item := ev_object ev in
      if is_delivered event_type then
        match handle_single_item item s with
        | (s1, Some e) => (s1, [Stdout (seen_message event_type item); ItemCallback item], Some e)
        | (s1, None) =>
            match process_lines rest fin s1 with
            | (s2, t, r) =>
                (s2, Stdout (seen_message event_type item) :: ItemCallback item
                       :: Stdout "doned" :: t, r)
            end
        end
      else
        match process_lines rest fin s with
        | (s2, t, r) =>
            (s2, Stdout (seen_message event_type item) :: Stdout "noned" :: t, r)
        end
  end.

(** [handle_response] of [async_process_items], lines 47-66: [try] with a
    [finally] block and no [except] clause. *)
Definition async_handle_response (resp : response) (s : St)
    : St * list event * option exn :=
  match process_lines (lines resp) (ending_of resp) s with
  | (s1, t1, Some e) => (s1, t1 ++ [Close; ReleaseConn], Some e)
  | (s1, t1, None) =>
      (s1, t1 ++ [Stdout "really doned"] ++ [Close; ReleaseConn] ++ [Stdout "handler doned"], None)
  end.

End Watch.

(** *** Notions used to state the properties *)

(** The watch requests and the error reports in a trace. *)
Definition list_calls (t : list event) : list list_call :=
  omap (fun ev => match ev with ListCall c => Some c | _ => None end) t.

Definition error_reports (t : list event) : list exn :=
  omap (fun ev => match ev with ErrorCallback e => Some e | _ => None end) t.

Definition item_callbacks (t : list event) : list Item :=
  omap (fun ev => match ev with ItemCallback i => Some i | _ => None end) t.

(** Events of the loop proper: callbacks and log lines, never a call on the
    connection or a new request. *)
Definition in_loop (ev : event) : Prop :=
  match ev with
  | ItemCallback _ | LogDebug _ | Stdout _ => True
  | _ => False
  end.

(** Events that leave the connection alone. *)
Definition leaves_connection (ev : event) : Prop :=
  match ev with
  | Close | ReleaseConn | ListCall _ => False
  | _ => True
  end.

End Initializer.

(** ** Concrete objects used by the examples *)

Module Fixtures.
Import Labelizer.

Definition initA : V1Initializer := {| init_name := "initA" |}.
Definition otherInit : V1Initializer := {| init_name := "otherInit" |}.

Definition job (n : string) (ini : option loc) : Item :=
  {| metadata := {| name := n; namespace := "default"; labels := [];
                    initializers := ini |};
     spec := "image: busybox" |}.

(** Two listed jobs: job 1 with queue [[initA]], job 2 with queue
    [[otherInit; initA]]; job 3 has queue [[initA; otherInit]], job 4 has no
    initializers field. *)
Definition store0 : heap :=
  {| items := <[1%positive := job "j1" (Some 10%positive)]>
             (<[2%positive := job "j2" (Some 20%positive)]>
             (<[3%positive := job "j3" (Some 30%positive)]>
             (<[4%positive := job "j4" None]> ∅)));
     inits := <[10%positive := {| pending := Some [initA]; result := None |}]>
             (<[20%positive := {| pending := Some [otherInit; initA]; result := None |}]>
             (<[30%positive := {| pending := Some [initA; otherInit]; result := None |}]> ∅)) |}.

Definition api (ls : list loc) : world :=
  {| list_response := fun _ => inl ls;
     update_response := fun _ _ _ _ => None |}.

(** A handler that admits every item as it is. *)
Definition accept_unchanged : handler_fn := fun l h => (h, inl l).

(** A handler that works on the item in place, as the docstring of
    [handle_item] has it ("the provided item, with any modifications made"),
    and then finds a reason to reject it. *)
Definition label_then_reject : handler_fn := fun l h =>
  match items h !! l with
  | Some it =>
      ({| items := <[l := {| metadata := metadata it; spec := "image: rewritten" |}]> (items h);
          inits := inits h |},
       inr (Rejection (Rejection_init "bad image" None 403 None)))
  | None => (h, inr (AttributeError "metadata"))
  end.

(** [LabelController(initializer_name="initA", handler=...)] over a child
    class of [JobHandler], as [main.py] wires it. *)
Definition job_controller (f : handler_fn) : LabelController :=
  {| initializer_name := "initA"; handler := override JobHandler f |}.

(** Callbacks for the watcher: the item callback has nothing to remember,
    the error callback logs the exception and returns, as the docstring of
    [async_list_items] asks of it. *)
Definition note_item : Item -> list exn -> list exn * option exn :=
  fun _ s => (s, None).
Definition log_error : exn -> list exn -> list exn * option exn :=
  fun e s => (s ++ [e], None).

Definition deleted_x : Initializer.change_event :=
  {| Initializer.ev_type := "DELETED"; Initializer.ev_object := job "x" None |}.
(** A server-side error event; its object is a status, decoded into the
    list function's item type like any other. *)
Definition error_first : Initializer.change_event :=
  {| Initializer.ev_type := "ERROR"; Initializer.ev_object := job "" None |}.
Definition added_y : Initializer.change_event :=
  {| Initializer.ev_type := "ADDED"; Initializer.ev_object := job "y" (Some 10%positive) |}.
Definition modified_y : Initializer.change_event :=
  {| Initializer.ev_type := "MODIFIED"; Initializer.ev_object := job "y" None |}.

(** A stream on which nothing arrives until the read times out. *)
Definition idle : Initializer.response :=
  {| Initializer.lines := []; Initializer.ending_of := Initializer.StreamRaises ReadTimeoutError |}.

(** A stream that breaks with a connection error. *)
Definition connection_reset : exn := OtherError "Connection reset by peer".
Definition broken : Initializer.response :=
  {| Initializer.lines := [];
     Initializer.ending_of := Initializer.StreamRaises connection_reset |}.

End Fixtures.

(** ** main.py *)

Module Main.
Import Labelizer.

(** The parsed command line: [--kubeconfig] (a flag), [--name] (required)
    and [--verbose]/[-v] (counted, 0 when absent). *)
Record args := mkArgs {
  kubeconfig : bool;
  name : string;
  verbose : nat
}.

Inductive level := DEBUG | INFO.

(** [base_log_level]: [DEBUG] if [args.verbose >= 1], else [INFO]. *)
Definition base_log_level (a : args) : level :=
  if Nat.leb 1 (verbose a) then DEBUG else INFO.

(** [if args.verbose < 2: logging.getLogger('kubernetes').setLevel(logging.INFO)];
    [None] when the library's logger is left to inherit the root level. *)
Definition kubernetes_level (a : args) : option level :=
  if Nat.ltb (verbose a) 2 then Some INFO else None.

Inductive event :=
| BasicConfig (l : level)
| SetKubernetesLevel (l : level)
| LoadKubeConfig
| LoadInclusterConfig
| Controller (ev : Labelizer.event)
| PrintDone.

(** [for handler in handlers: handler.handle_update()]. *)
Fixpoint for_handlers (w : world) (handlers : list LabelController) : M unit :=
  match handlers with
  | [] => ret tt
  | c :: rest => handle_update w c ;;; for_handlers w rest
  end.

(** [main()]: logging set-up, configuration from the kubeconfig file or from
    the cluster environment ([load_config] is the exception that raises, if
    any), one [LabelController] over [JobHandler(api_client)], one pass, and
    ["Done."]. *)
Definition main (a : args) (load_config : option exn) (w : world) (h : heap)
    : heap * list event * option exn :=
  let logging :=
    BasicConfig (base_log_level a)
      :: match kubernetes_level a with
         | Some l => [SetKubernetesLevel l]
         | None => []
         end in
  let load := if kubeconfig a then LoadKubeConfig else LoadInclusterConfig in
  match load_config with
  | Some e => (h, logging ++ [load], Some e)
  | None =>
      let handlers := [ {| initializer_name := name a; handler := JobHandler |} ] in
      match for_handlers w handlers h with
      | (h1, t, inl _) => (h1, logging ++ [load] ++ map Controller t ++ [PrintDone], None)
      | (h1, t, inr e) => (h1, logging ++ [load] ++ map Controller t, Some e)
      end
  end.

End Main.

(** ** Further notions used to state properties *)

Module Notions.

(** The handler calls and the updates in a trace of the label controller. *)
Definition handled (t : list Labelizer.event) : list loc :=
  omap (fun ev => match ev with Labelizer.EvHandle l => Some l | _ => None end) t.

Definition updates (t : list Labelizer.event) : list Body :=
  omap (fun ev => match ev with Labelizer.EvUpdate _ _ _ b => Some b | _ => None end) t.

(** What one listed item may contribute to the trace: nothing, a handler
    call, or a handler call followed by one update through the handler's
    update function. *)
Definition item_chunk (self : Labelizer.LabelController) (l : loc)
    (c : list Labelizer.event) : Prop :=
  c = [] \/
  c = [Labelizer.EvHandle l] \/
  exists n ns b,
    c = [Labelizer.EvHandle l;
         Labelizer.EvUpdate
           (Labelizer.patch_namespaced_item (Labelizer.handler self)) n ns b].

(** The objects of the [ADDED]/[MODIFIED] events of a stream, in order. *)
Definition delivered_objects (ls : list Initializer.change_event) : list Item :=
  map Initializer.ev_object
      (filter (fun ev => Initializer.is_delivered (Initializer.ev_type ev) = true) ls).

(** What reading a stream to its end leaves pending. *)
Definition ending_result (fin : Initializer.ending) : option exn :=
  match fin with
  | Initializer.EndOfStream => None
  | Initializer.StreamRaises e => Some e
  end.

(** What [main] does before the pass: logging set-up and configuration. *)
Definition main_prefix (a : Main.args) : list Main.event :=
  (Main.BasicConfig (Main.base_log_level a)
     :: match Main.kubernetes_level a with
        | Some l => [Main.SetKubernetesLevel l]
        | None => []
        end)
  ++ [if Main.kubeconfig a then Main.LoadKubeConfig else Main.LoadInclusterConfig].

End Notions.

(** ** More concrete handlers *)

Module MoreFixtures.
Import Labelizer.

(** A handler that clears [metadata.initializers] of the item and returns
    it. *)
Definition strip_initializers : handler_fn := fun l h =>
  match items h !! l with
  | Some it =>
      ({| items := <[l := {| metadata := {| name := name (metadata it);
                                            namespace := namespace (metadata it);
                                            labels := labels (metadata it);
                                            initializers := None |};
                             spec := spec it |}]> (items h);
          inits := inits h |},
       inl l)
  | None => (h, inr (AttributeError "metadata"))
  end.

(** A handler that fails with something that is not a [Rejection]. *)
Definition crash : handler_fn := fun l h => (h, inr (OtherError "boom")).

(** [item.metadata.initializers.pending] with its first entry removed in
    place, as a handler does with [del pending[:1]]. *)
Definition pop_in_place (l : loc) (h : heap) : heap + exn :=
  match items h !! l with
  | Some it =>
      match deref_initializers h (initializers (metadata it)), initializers (metadata it) with
      | Some ini, Some li =>
          match pending ini with
          | Some q =>
              inl {| items := items h;
                     inits := <[li := {| pending := Some (tail q); result := result ini |}]>
                                (inits h) |}
          | None => inr (TypeError "'NoneType' object does not support item deletion")
          end
      | _, _ => inr (AttributeError "pending")
      end
  | None => inr (AttributeError "metadata")
  end.

(** A handler that takes itself off the pending list and admits the item. *)
Definition pop_then_accept : handler_fn := fun l h =>
  match pop_in_place l h with
  | inl h1 => (h1, inl l)
  | inr e => (h, inr e)
  end.

(** A handler that takes itself off the pending list and rejects the item. *)
Definition pop_then_reject : handler_fn := fun l h =>
  match pop_in_place l h with
  | inl h1 => (h1, inr (Rejection (Rejection_init "bad image" None 403 None)))
  | inr e => (h, inr e)
  end.

End MoreFixtures.

(** ** Properties of the label controller *)

Module LabelizerProofs.
Import Labelizer Fixtures.

Lemma gate_isEligible h it n :
  gate h (initializers (metadata it)) n = isEligible (queue_of h it) n.
Proof.
  unfold gate, queue_of, deref_initializers.
  destruct (initializers (metadata it)) as [li|]; [|reflexivity].
  destruct (inits h !! li) as [ini|]; [|reflexivity].
  destruct (pending ini) as [[|p q]|]; reflexivity.
Qed.

Lemma isEligible_true q n :
  isEligible q n = true <-> exists p ps, q = p :: ps /\ init_name p = n.
Proof.
  destruct q as [|p ps]; simpl.
  - split; [discriminate | intros (p & ps & H & _); discriminate].
  - rewrite bool_decide_eq_true. split.
    + intros H. exists p, ps. auto.
    + intros (p' & ps' & Heq & Hn). congruence.
Qed.

(** An item the loop skips: nothing is called and the store is as before. *)
Lemma loop_body_skip w self l h it :
  items h !! l = Some it ->
  gate h (initializers (metadata it)) (initializer_name self) = false ->
  loop_body w self l h = (h, [], inl tt).
Proof.
  intros Hit Hg. unfold loop_body, bind, read_item, get. rewrite Hit. simpl.
  rewrite Hg. reflexivity.
Qed.

(** An item the loop takes: the handler is the first thing called. *)
Lemma loop_body_take w self l h it :
  items h !! l = Some it ->
  gate h (initializers (metadata it)) (initializer_name self) = true ->
  exists h' t r, loop_body w self l h = (h', EvHandle l :: t, r).
Proof.
  intros Hit Hg. unfold loop_body, bind at 1 2, read_item, get. rewrite Hit. simpl.
  rewrite Hg.
  unfold bind at 1. unfold try_except_Rejection, call_handle_item, bind at 1, emit.
  destruct (handle_item (handler self) l h) as [h1 [u|e]]; simpl.
  - match goal with |- context [bind ?m ?k h1] => destruct (bind m k h1) as [[h2 t2] r2] end.
    eauto.
  - destruct e; simpl; eauto.
    match goal with |- context [bind ?m ?k h1] => destruct (bind m k h1) as [[h2 t2] [a|e2]] end;
      simpl; eauto.
    match goal with |- context [bind ?m ?k h2] => destruct (bind m k h2) as [[h3 t3] r3] end.
    eauto.
Qed.

(** *** Evaluation lemmas for the primitive steps *)

Lemma bind_inl {A B} (m : M A) (k : A -> M B) h h1 t1 a :
  m h = (h1, t1, inl a) ->
  bind m k h = (let '(h2, t2, r) := k a h1 in (h2, t1 ++ t2, r)).
Proof. intros H. unfold bind. rewrite H. destruct (k a h1) as [[h2 t2] r]. reflexivity. Qed.

Lemma bind_inr {A B} (m : M A) (k : A -> M B) h h1 t1 e :
  m h = (h1, t1, inr e) -> bind m k h = (h1, t1, inr e).
Proof. intros H. unfold bind. rewrite H. reflexivity. Qed.

Lemma read_item_some l h it :
  items h !! l = Some it -> read_item l h = (h, [], inl it).
Proof. intros H. unfold read_item. rewrite H. reflexivity. Qed.

Lemma initializers_ref_some l a h it lj inj :
  items h !! l = Some it ->
  initializers (metadata it) = Some lj ->
  inits h !! lj = Some inj ->
  initializers_ref l a h = (h, [], inl lj).
Proof.
  intros Hit Hlj Hinj. unfold initializers_ref.
  rewrite (bind_inl _ _ _ _ _ _ (read_item_some _ _ _ Hit)). rewrite Hlj.
  unfold bind, get, ret. rewrite Hinj. reflexivity.
Qed.

Lemma pending_rest_some li h ini q :
  inits h !! li = Some ini ->
  pending ini = Some q ->
  pending_rest (Some li) h = (h, [], inl (tail q)).
Proof. intros H1 H2. unfold pending_rest. simpl. rewrite H1, H2. reflexivity. Qed.

(** If the captured initializers object holds queue [q] and the item to send
    has an initializers object, the block issues one update whose queue is
    [tail q]; the item itself is sent as it stands in the store. *)
Lemma advance_block_run w self li sent h ini q it1 lj inj :
  inits h !! li = Some ini ->
  pending ini = Some q ->
  items h !! sent = Some it1 ->
  initializers (metadata it1) = Some lj ->
  inits h !! lj = Some inj ->
  let b := {| b_ref := sent; b_item := it1;
              b_initializers := Some {| pending := Some (tail q); result := result inj |} |} in
  let m := patch_namespaced_item (handler self) in
  let n := name (metadata it1) in
  let ns := namespace (metadata it1) in
  advance_block w self (Some li) sent h =
    ({| items := items h;
        inits := <[lj := {| pending := Some (tail q); result := result inj |}]> (inits h) |},
     [EvUpdate m n ns b], update_outcome w m n ns b).
Proof.
  intros Hli Hq Hit Hlj Hinj. simpl. unfold advance_block.
  rewrite (bind_inl _ _ _ _ _ _ (pending_rest_some _ _ _ _ Hli Hq)).
  rewrite (bind_inl _ _ _ _ _ _ (initializers_ref_some _ "pending" _ _ _ _ Hit Hlj Hinj)).
  unfold bind at 1. unfold set_pending_at at 1. rewrite Hinj.
  unfold patch_item.
  set (h2 := {| items := items h; inits := _ |}).
  assert (Hit2 : items h2 !! sent = Some it1) by exact Hit.
  rewrite (bind_inl _ _ _ _ _ _ (read_item_some _ _ _ Hit2)).
  unfold bind, get, emit, snapshot, update_outcome, deref_initializers. rewrite Hlj.
  subst h2. simpl. rewrite lookup_insert_eq.
  destruct (update_response w _ _ _ _); reflexivity.
Qed.

(** *** The three ways the handler call can end *)

Lemma loop_body_accept w self l h it h1 u :
  items h !! l = Some it ->
  gate h (initializers (metadata it)) (initializer_name self) = true ->
  handle_item (handler self) l h = (h1, inl u) ->
  loop_body w self l h =
    after_handle l (advance_block w self (initializers (metadata it)) u h1).
Proof.
  intros Hit Hg Hh. unfold loop_body.
  rewrite (bind_inl _ _ _ _ _ _ (read_item_some _ _ _ Hit)).
  unfold bind at 1, get. rewrite Hg.
  unfold bind at 1, try_except_Rejection, call_handle_item, bind at 1, emit.
  rewrite Hh. simpl. unfold advance_block, after_handle.
  match goal with |- context [bind ?m ?k h1] => destruct (bind m k h1) as [[h2 t2] r2] end.
  reflexivity.
Qed.

Lemma loop_body_reject w self l h it h1 st it1 lj inj :
  items h !! l = Some it ->
  gate h (initializers (metadata it)) (initializer_name self) = true ->
  handle_item (handler self) l h = (h1, inr (Rejection st)) ->
  items h1 !! l = Some it1 ->
  initializers (metadata it1) = Some lj ->
  inits h1 !! lj = Some inj ->
  loop_body w self l h =
    after_handle l
      (advance_block w self (initializers (metadata it)) l
         {| items := items h1;
            inits := <[lj := {| pending := pending inj; result := Some st |}]> (inits h1) |}).
Proof.
  intros Hit Hg Hh Hit1 Hlj Hinj. unfold loop_body.
  rewrite (bind_inl _ _ _ _ _ _ (read_item_some _ _ _ Hit)).
  unfold bind at 1, get. rewrite Hg.
  unfold bind at 1, try_except_Rejection, call_handle_item, bind at 1, emit.
  rewrite Hh. simpl.
  rewrite (bind_inl _ _ _ _ _ _ (initializers_ref_some _ "result" _ _ _ _ Hit1 Hlj Hinj)).
  unfold bind at 1, set_result_at at 1. rewrite Hinj. unfold ret at 1. simpl.
  unfold advance_block, after_handle.
  match goal with |- context [bind ?m ?k ?hh] => destruct (bind m k hh) as [[h2 t2] r2] end.
  reflexivity.
Qed.

Lemma loop_body_raise w self l h it h1 e :
  items h !! l = Some it ->
  gate h (initializers (metadata it)) (initializer_name self) = true ->
  handle_item (handler self) l h = (h1, inr e) ->
  (forall st, e <> Rejection st) ->
  loop_body w self l h = (h1, [EvHandle l], inr e).
Proof.
  intros Hit Hg Hh Hne. unfold loop_body.
  rewrite (bind_inl _ _ _ _ _ _ (read_item_some _ _ _ Hit)).
  unfold bind at 1, get. rewrite Hg.
  unfold bind at 1, try_except_Rejection, call_handle_item, bind at 1, emit.
  rewrite Hh. simpl. destruct e; try reflexivity. exfalso. eapply Hne. reflexivity.
Qed.

(** *** Which API function an update goes through *)

Lemma traces_sat_bind {A B} P (m : M A) (k : A -> M B) :
  traces_sat P m -> (forall a, traces_sat P (k a)) -> traces_sat P (bind m k).
Proof.
  intros Hm Hk h. unfold bind. specialize (Hm h).
  destruct (m h) as [[h1 t1] [a|e]]; [|exact Hm].
  specialize (Hk a h1). destruct (k a h1) as [[h2 t2] r].
  unfold trace_of in *. simpl in *. apply Forall_app. split; assumption.
Qed.

Lemma traces_sat_try {A} P (m : M A) (k : V1Status -> M A) :
  traces_sat P m -> (forall st, traces_sat P (k st)) ->
  traces_sat P (try_except_Rejection m k).
Proof.
  intros Hm Hk h. unfold try_except_Rejection. specialize (Hm h).
  destruct (m h) as [[h1 t1] [a|e]]; [exact Hm|].
  destruct e; try exact Hm.
  specialize (Hk st h1). destruct (k st h1) as [[h2 t2] r].
  unfold trace_of in *. simpl in *. apply Forall_app. split; assumption.
Qed.

Lemma traces_sat_silent {A} P (m : M A) :
  (forall h, trace_of (m h) = []) -> traces_sat P m.
Proof. intros H h. rewrite H. constructor. Qed.

Ltac silent_step :=
  apply traces_sat_silent; intros ?;
  unfold read_item, get, ret, raise, set_result_at, set_pending_at, pending_rest;
  repeat case_match; reflexivity.

Lemma initializers_ref_sat P l a : traces_sat P (initializers_ref l a).
Proof.
  unfold initializers_ref. apply traces_sat_bind; [silent_step|]. intros it.
  destruct (initializers (metadata it)); [|silent_step].
  apply traces_sat_bind; [silent_step|]. intros h. silent_step.
Qed.

Lemma patch_item_sat w hd l :
  traces_sat (updates_through (patch_namespaced_item hd)) (patch_item w hd l).
Proof.
  unfold patch_item. apply traces_sat_bind; [silent_step|]. intros it.
  apply traces_sat_bind; [silent_step|]. intros h.
  apply traces_sat_bind.
  - intros h0. unfold emit, trace_of. simpl. repeat constructor.
  - intros _. silent_step.
Qed.

Lemma loop_body_sat w self l :
  traces_sat (updates_through (patch_namespaced_item (handler self))) (loop_body w self l).
Proof.
  unfold loop_body. apply traces_sat_bind; [silent_step|]. intros it.
  apply traces_sat_bind; [silent_step|]. intros h.
  destruct (gate h _ _); [|silent_step].
  apply traces_sat_bind.
  - apply traces_sat_try.
    + unfold call_handle_item. apply traces_sat_bind.
      * intros h0. unfold emit, trace_of. simpl. repeat constructor.
      * intros _ h0. destruct (handle_item _ _ _). unfold trace_of. simpl. constructor.
    + intros st. apply traces_sat_bind; [apply initializers_ref_sat|]. intros li.
      apply traces_sat_bind; [silent_step | intros _; silent_step].
  - intros u. apply traces_sat_bind; [silent_step|]. intros rest.
    apply traces_sat_bind; [apply initializers_ref_sat|]. intros li.
    apply traces_sat_bind; [silent_step|]. intros _. apply patch_item_sat.
Qed.

Lemma for_each_sat P body ls :
  (forall l, traces_sat P (body l)) -> traces_sat P (for_each body ls).
Proof.
  intros Hb. induction ls as [|l ls IH]; simpl.
  - silent_step.
  - apply traces_sat_bind; [apply Hb | intros _; exact IH].
Qed.

(** Every update of [handle_update] goes through the function the handler
    was constructed with. *)
Lemma handle_update_sat w self :
  traces_sat (updates_through (patch_namespaced_item (handler self))) (handle_update w self).
Proof.
  unfold handle_update. apply traces_sat_bind.
  - unfold list_all_items. apply traces_sat_bind.
    + intros h. unfold emit, trace_of. simpl. repeat constructor.
    + intros _. destruct (list_response _ _); silent_step.
  - intros ls. apply for_each_sat. intros l. apply loop_body_sat.
Qed.

(** The handlers [labelizer] constructs, and every child class of them, send
    their updates with merge semantics. *)
Lemma labelizer_updates_are_patch parent f n w h m nm ns b :
  parent = PodHandler \/ parent = JobHandler \/ parent = DaemonSetHandler ->
  In (EvUpdate m nm ns b)
     (trace_of (handle_update w {| initializer_name := n; handler := override parent f |} h)) ->
  semantics_of m = PartialMerge.
Proof.
  intros Hp Hin.
  pose proof (handle_update_sat w {| initializer_name := n; handler := override parent f |} h) as Hs.
  rewrite Forall_forall in Hs. apply list_elem_of_In in Hin. specialize (Hs _ Hin). simpl in Hs.
  subst m. destruct Hp as [->|[->| ->]]; reflexivity.
Qed.

(** *** The admission gate *)

(** C1. For every listed object the gate of [handle_update] accepts the
    object (the handler is called for it) if and only if its pending queue
    is non-empty and the first entry's name equals the configured
    initializer name.  An absent initializers field, an absent pending list
    and an empty pending list all read as the empty queue, and the object is
    not accepted. *)
Theorem C1_gate_accepts_iff_head_matches w self h l it :
  items h !! l = Some it ->
  (gate h (initializers (metadata it)) (initializer_name self) = true <->
     exists p ps, queue_of h it = p :: ps /\ init_name p = initializer_name self)
  /\ ((exists h' t r, loop_body w self l h = (h', EvHandle l :: t, r)) <->
      gate h (initializers (metadata it)) (initializer_name self) = true)
  /\ gate h (initializers (metadata it)) (initializer_name self)
       = isEligible (queue_of h it) (initializer_name self)
  /\ (initializers (metadata it) = None ->
      queue_of h it = [] /\
      gate h (initializers (metadata it)) (initializer_name self) = false)
  /\ (forall li ini,
        initializers (metadata it) = Some li -> inits h !! li = Some ini ->
        pending ini = None \/ pending ini = Some [] ->
        queue_of h it = [] /\
        gate h (initializers (metadata it)) (initializer_name self) = false).
Proof.
  intros Hit. split; [|split; [|split; [|split]]].
  - rewrite gate_isEligible. apply isEligible_true.
  - split.
    + intros (h' & t & r & Hrun).
      destruct (gate h (initializers (metadata it)) (initializer_name self)) eqn:Hg;
        [reflexivity|].
      rewrite (loop_body_skip w self l h it Hit Hg) in Hrun. discriminate.
    + intros Hg. exact (loop_body_take w self l h it Hit Hg).
  - apply gate_isEligible.
  - intros Hnone. unfold queue_of. rewrite Hnone. split; reflexivity.
  - intros li ini Hli Hini Hq. unfold queue_of. rewrite Hli. simpl. rewrite Hini.
    destruct Hq as [-> | ->]; split; reflexivity.
Qed.

Lemma C1_witness :
  gate store0 (Some 10%positive) "initA" = true <->
  exists p ps, queue_of store0 (job "j1" (Some 10%positive)) = p :: ps /\ init_name p = "initA".
Proof.
  exact (proj1 (C1_gate_accepts_iff_head_matches (api [1%positive])
                  (job_controller accept_unchanged) store0 1%positive
                  (job "j1" (Some 10%positive)) eq_refl)).
Defined.

(** *** The queue advancer *)

(** What the advancer does for a handler that honours its docstring ("the
    caller is responsible for updating the item's initializers object, so it
    should be returned unchanged"), that is, one that leaves the queue alone
    and returns an object that still has its initializers object.  For an
    object whose queue is [p :: ps] with [p] naming this initializer, and
    for both ways the handler can end, the controller then issues exactly
    one update, and the queue in that update is [ps]. *)
Lemma update_pops_the_head_when_the_queue_is_kept
    w self h l it li ini p ps h1 r sent it1 lj inj :
  items h !! l = Some it ->
  initializers (metadata it) = Some li ->
  inits h !! li = Some ini ->
  pending ini = Some (p :: ps) ->
  init_name p = initializer_name self ->
  handle_item (handler self) l h = (h1, r) ->
  (r = inl sent \/ exists st, r = inr (Rejection st) /\ sent = l) ->
  (exists ini', inits h1 !! li = Some ini' /\ pending ini' = Some (p :: ps)) ->
  items h1 !! sent = Some it1 ->
  initializers (metadata it1) = Some lj ->
  inits h1 !! lj = Some inj ->
  exists h' b,
    loop_body w self l h =
      (h', [EvHandle l;
            EvUpdate (patch_namespaced_item (handler self))
                     (name (metadata it1)) (namespace (metadata it1)) b],
       update_outcome w (patch_namespaced_item (handler self))
                      (name (metadata it1)) (namespace (metadata it1)) b)
    /\ b_ref b = sent
    /\ body_queue b = ps
    /\ queue_of h it = p :: ps.
Proof.
  intros Hit Hli Hini Hq Hp Hh Hr (ini' & Hli' & Hq') Hit1 Hlj Hinj.
  assert (Hg : gate h (initializers (metadata it)) (initializer_name self) = true).
  { rewrite Hli. simpl. rewrite Hini, Hq. apply bool_decide_eq_true. exact Hp. }
  assert (Hqueue : queue_of h it = p :: ps).
  { unfold queue_of. rewrite Hli. simpl. rewrite Hini, Hq. reflexivity. }
  destruct Hr as [-> | (st & -> & ->)].
  - rewrite (loop_body_accept w self l h it h1 sent Hit Hg Hh). rewrite Hli.
    rewrite (advance_block_run w self li sent h1 ini' (p :: ps) it1 lj inj
               Hli' Hq' Hit1 Hlj Hinj).
    simpl. eexists _, _. repeat split; try reflexivity. exact Hqueue.
  - rewrite (loop_body_reject w self l h it h1 st it1 lj inj Hit Hg Hh Hit1 Hlj Hinj).
    rewrite Hli.
    set (h2 := {| items := items h1; inits := _ |}).
    assert (Hlj2 : inits h2 !! lj = Some {| pending := pending inj; result := Some st |}).
    { subst h2. simpl. apply lookup_insert_eq. }
    assert (Hli2 : exists ini2, inits h2 !! li = Some ini2 /\ pending ini2 = Some (p :: ps)).
    { destruct (decide (lj = li)) as [->|Hne].
      - eexists. split; [exact Hlj2|]. simpl. congruence.
      - exists ini'. split; [|exact Hq']. subst h2. simpl.
        rewrite lookup_insert_ne by exact Hne. exact Hli'. }
    destruct Hli2 as (ini2 & Hli2 & Hq2).
    rewrite (advance_block_run w self li l h2 ini2 (p :: ps) it1 lj _
               Hli2 Hq2 Hit1 Hlj Hlj2).
    simpl. eexists _, _. repeat split; try reflexivity. exact Hqueue.
Qed.

(** Queue [[initA; otherInit]] processed by [initA] with an accepting
    handler: the update carries [[otherInit]]. *)
Lemma update_pops_the_head_example :
  exists h' b,
    loop_body (api [3%positive]) (job_controller accept_unchanged) 3%positive store0 =
      (h', [EvHandle 3%positive; EvUpdate patch_namespaced_job "j3" "default" b], inl tt)
    /\ b_ref b = 3%positive
    /\ body_queue b = [otherInit]
    /\ queue_of store0 (job "j3" (Some 30%positive)) = [initA; otherInit].
Proof.
  exact (update_pops_the_head_when_the_queue_is_kept (api [3%positive]) (job_controller accept_unchanged)
           store0 3%positive (job "j3" (Some 30%positive)) 30%positive
           {| pending := Some [initA; otherInit]; result := None |}
           initA [otherInit] store0 (inl 3%positive) 3%positive
           (job "j3" (Some 30%positive)) 30%positive
           {| pending := Some [initA; otherInit]; result := None |}
           eq_refl eq_refl eq_refl eq_refl eq_refl eq_refl (or_introl eq_refl)
           (ex_intro _ _ (conj eq_refl eq_refl)) eq_refl eq_refl eq_refl).
Defined.

(** C2, evaluated where the claim and the code part ways.  Line 52 reads
    the pending list through [initializers], the reference taken before the
    handler ran, so it sees what the handler did to that object in place and
    not "the old initializer pending list" of the comment on line 51.  Job 3
    is listed with queue [[initA; otherInit]].  A handler that takes itself
    off the list in place and returns the item, or raises [Rejection],
    leaves [[otherInit]] in the object; the controller then sends the tail
    of that, the empty queue: [otherInit] is removed as well, for both
    outcomes. *)
Theorem C2_queue_is_read_after_the_handler_ran :
  queue_of store0 (job "j3" (Some 30%positive)) = [initA; otherInit]
  /\ (exists h' b,
        handle_update (api [3%positive]) (job_controller MoreFixtures.pop_then_accept) store0 =
          (h', [EvList list_job_for_all_namespaces; EvHandle 3%positive;
                EvUpdate patch_namespaced_job "j3" "default" b], inl tt)
        /\ body_queue b = []
        /\ body_queue b <> [otherInit])
  /\ (exists h' b,
        handle_update (api [3%positive]) (job_controller MoreFixtures.pop_then_reject) store0 =
          (h', [EvList list_job_for_all_namespaces; EvHandle 3%positive;
                EvUpdate patch_namespaced_job "j3" "default" b], inl tt)
        /\ body_result b = Some (Rejection_init "bad image" None 403 None)
        /\ body_queue b = []
        /\ body_queue b <> [otherInit]).
Proof.
  split; [reflexivity|]. split.
  - eexists _, _. split; [vm_compute; reflexivity|].
    split; [reflexivity | intros H; discriminate H].
  - eexists _, _. split; [vm_compute; reflexivity|].
    split; [reflexivity|]. split; [reflexivity | intros H; discriminate H].
Qed.

(** X13. On rejection the reference sent is the one the handler was given,
    the status is recorded in [initializers.result], the queue in the update
    is the tail of the queue then held by the captured initializers object,
    and the item is sent in the state the handler left it in ([it1], read
    from the store after the call). *)
Lemma rejection_sends_the_handled_reference
    w self h l it h1 st it1 lj inj li ini q :
  items h !! l = Some it ->
  gate h (initializers (metadata it)) (initializer_name self) = true ->
  initializers (metadata it) = Some li ->
  handle_item (handler self) l h = (h1, inr (Rejection st)) ->
  items h1 !! l = Some it1 ->
  initializers (metadata it1) = Some lj ->
  inits h1 !! lj = Some inj ->
  inits h1 !! li = Some ini ->
  pending ini = Some q ->
  exists h' b,
    loop_body w self l h =
      (h', [EvHandle l;
            EvUpdate (patch_namespaced_item (handler self))
                     (name (metadata it1)) (namespace (metadata it1)) b],
       update_outcome w (patch_namespaced_item (handler self))
                      (name (metadata it1)) (namespace (metadata it1)) b)
    /\ b_ref b = l /\ b_item b = it1 /\ body_result b = Some st /\ body_queue b = tail q.
Proof.
  intros Hit Hg Hli Hh Hit1 Hlj Hinj Hini Hq.
  rewrite (loop_body_reject w self l h it h1 st it1 lj inj Hit Hg Hh Hit1 Hlj Hinj).
  rewrite Hli.
  set (h2 := {| items := items h1; inits := _ |}).
  assert (Hlj2 : inits h2 !! lj = Some {| pending := pending inj; result := Some st |}).
  { subst h2. simpl. apply lookup_insert_eq. }
  assert (Hli2 : exists ini2, inits h2 !! li = Some ini2 /\ pending ini2 = Some q).
  { destruct (decide (lj = li)) as [->|Hne].
    - eexists. split; [exact Hlj2|]. simpl. congruence.
    - exists ini. split; [|exact Hq]. subst h2. simpl.
      rewrite lookup_insert_ne by exact Hne. exact Hini. }
  destruct Hli2 as (ini2 & Hli2 & Hq2).
  rewrite (advance_block_run w self li l h2 ini2 q it1 lj _ Hli2 Hq2 Hit1 Hlj Hlj2).
  simpl. eexists _, _. repeat split; reflexivity.
Qed.

(** C3, evaluated where the claim and the code part ways.  A handler that
    rewrites the item in place and then raises [Rejection] (message
    ["bad image"], code 403): an update is still issued, for the very
    reference that was listed, with the status recorded (reason defaulting to
    the message) and the queue emptied; but the item in the update carries
    the handler's rewrite, not the listed state. *)
Theorem C3_rejected_item_is_sent_as_the_handler_left_it :
  exists h' b,
    handle_update (api [1%positive]) (job_controller label_then_reject) store0 =
      (h', [EvList list_job_for_all_namespaces; EvHandle 1%positive;
            EvUpdate patch_namespaced_job "j1" "default" b], inl tt)
    /\ b_ref b = 1%positive
    /\ body_result b =
         Some {| message := "bad image"; reason := "bad image"; code := 403;
                 details := None; status := "Failure" |}
    /\ body_queue b = []
    /\ items store0 !! 1%positive = Some (job "j1" (Some 10%positive))
    /\ spec (job "j1" (Some 10%positive)) = "image: busybox"
    /\ spec (b_item b) = "image: rewritten"
    /\ b_item b <> job "j1" (Some 10%positive).
Proof.
  eexists _, _. split; [vm_compute; reflexivity|].
  repeat split; try reflexivity. simpl. intros H. discriminate H.
Qed.

(** C4, evaluated on the wiring of [main.py]: a [LabelController] over (a
    child class of) [JobHandler].  The update for an admitted job goes
    through [patch_namespaced_job], a merge-style call. *)
Theorem C4_job_update_is_a_patch_call :
  exists h' b,
    handle_update (api [1%positive]) (job_controller accept_unchanged) store0 =
      (h', [EvList list_job_for_all_namespaces; EvHandle 1%positive;
            EvUpdate patch_namespaced_job "j1" "default" b], inl tt)
    /\ semantics_of patch_namespaced_job = PartialMerge
    /\ semantics_of patch_namespaced_job <> FullReplace.
Proof.
  eexists _, _. split; [vm_compute; reflexivity|].
  split; [reflexivity | discriminate].
Qed.

(** *** Objects that are not eligible *)

Lemma ineligible_gate h it n :
  ineligible h it n -> gate h (initializers (metadata it)) n = false.
Proof.
  unfold ineligible. rewrite gate_isEligible.
  destruct (queue_of h it) as [|p ps]; simpl; [reflexivity|].
  intros Hne. apply bool_decide_eq_false. exact Hne.
Qed.

Lemma absent_name_ineligible h it n :
  (forall p, In p (queue_of h it) -> init_name p <> n) -> ineligible h it n.
Proof.
  unfold ineligible. destruct (queue_of h it) as [|p ps]; [trivial|].
  intros H. apply H. left. reflexivity.
Qed.

(** C9. For a listed object that is not eligible (queue absent, empty, or
    headed by another initializer) the loop body calls neither the handler
    nor the update function, and the store is left as it was.  In
    particular an object whose queue no longer names this initializer is not
    advanced again. *)
Theorem C9_ineligible_object_is_left_alone w self h l it :
  items h !! l = Some it ->
  (ineligible h it (initializer_name self) ->
     loop_body w self l h = (h, [], inl tt))
  /\ ((forall p, In p (queue_of h it) -> init_name p <> initializer_name self) ->
      loop_body w self l h = (h, [], inl tt)).
Proof.
  intros Hit. split.
  - intros Hin. apply (loop_body_skip w self l h it Hit). apply ineligible_gate. exact Hin.
  - intros Hno. apply (loop_body_skip w self l h it Hit). apply ineligible_gate.
    apply absent_name_ineligible. exact Hno.
Qed.

Lemma C9_witness :
  loop_body (api [2%positive]) (job_controller accept_unchanged) 2%positive store0
  = (store0, [], inl tt).
Proof.
  apply (proj1 (C9_ineligible_object_is_left_alone (api [2%positive])
                  (job_controller accept_unchanged) store0 2%positive
                  (job "j2" (Some 20%positive)) eq_refl)).
  vm_compute. intros H. discriminate H.
Defined.

(** A whole pass over objects none of which is eligible: only the list call
    is made. *)
Lemma for_each_all_ineligible w self ls h :
  Forall (fun l => exists it, items h !! l = Some it /\
                              ineligible h it (initializer_name self)) ls ->
  for_each (loop_body w self) ls h = (h, [], inl tt).
Proof.
  induction 1 as [|l ls (it & Hit & Hin) _ IH]; simpl; [reflexivity|].
  unfold bind. rewrite (loop_body_skip w self l h it Hit (ineligible_gate _ _ _ Hin)).
  rewrite IH. reflexivity.
Qed.

(** After job 1 was admitted, a second pass finds it not eligible and does
    nothing beyond listing. *)
Example second_pass_is_idle :
  let '(h1, _, _) := handle_update (api [1%positive]) (job_controller accept_unchanged) store0 in
  handle_update (api [1%positive]) (job_controller accept_unchanged) h1
  = (h1, [EvList list_job_for_all_namespaces], inl tt).
Proof. vm_compute. reflexivity. Qed.

(** Scenario of the specification: jobs with queues [[initA]] and
    [[otherInit; initA]]; only the first is processed and ends with an empty
    queue. *)
Example initial_list_scenario :
  exists h' b,
    handle_update (api [1%positive; 2%positive]) (job_controller accept_unchanged) store0 =
      (h', [EvList list_job_for_all_namespaces; EvHandle 1%positive;
            EvUpdate patch_namespaced_job "j1" "default" b], inl tt)
    /\ body_queue b = [].
Proof. eexists _, _. split; [vm_compute; reflexivity | reflexivity]. Qed.

(** *** The handler that is not overridden *)

(** C10, evaluated on the code: for every item the inherited [handle_item]
    raises [AttributeError] for the attribute [metadtata] while it builds
    the message, so no [Rejection] is constructed; nothing is returned
    either. *)
Theorem C10_default_handler_raises_AttributeError l h :
  default_handle_item l h = (h, inr (AttributeError "metadtata"))
  /\ (forall st, snd (default_handle_item l h) <> inr (Rejection st))
  /\ (forall u, snd (default_handle_item l h) <> inl u).
Proof.
  assert (H : default_handle_item l h = (h, inr (AttributeError "metadtata"))).
  { unfold default_handle_item. destruct (items h !! l); reflexivity. }
  rewrite H. simpl. repeat split; intros; discriminate.
Qed.

(** With the inherited handler the controller stops at the first eligible
    object: the exception is not a [Rejection], is not caught, and no update
    is issued. *)
Example default_handler_aborts_the_pass :
  handle_update (api [1%positive; 3%positive])
    {| initializer_name := "initA"; handler := JobHandler |} store0
  = (store0, [EvList list_job_for_all_namespaces; EvHandle 1%positive],
     inr (AttributeError "metadtata")).
Proof. vm_compute. reflexivity. Qed.

(** An update the server refuses: the exception leaves [handle_update], the
    call is not repeated and the objects behind it are not looked at. *)
Example update_failure_ends_the_pass :
  exists h' b,
    handle_update {| list_response := fun _ => inl [1%positive; 3%positive];
                     update_response := fun _ _ _ _ => Some (ApiException 409) |}
                  (job_controller accept_unchanged) store0 =
      (h', [EvList list_job_for_all_namespaces; EvHandle 1%positive;
            EvUpdate patch_namespaced_job "j1" "default" b], inr (ApiException 409)).
Proof. eexists _, _. vm_compute. reflexivity. Qed.

(** What the inherited handler would raise were the attribute spelled
    [metadata]: the status has reason ["RejectAll"] and code 400. *)
Example Rejection_init_RejectAll :
  Rejection_init "Handler not implemented; rejecting j1." (Some "RejectAll") default_code None
  = {| message := "Handler not implemented; rejecting j1."; reason := "RejectAll";
       code := 400; details := None; status := "Failure" |}.
Proof. reflexivity. Qed.

Example Rejection_init_reason_defaults :
  reason (Rejection_init "bad image" None 403 None) = "bad image"
  /\ reason (Rejection_init "bad image" (Some "") 403 None) = "bad image".
Proof. split; reflexivity. Qed.

End LabelizerProofs.

(** ** Properties of the watcher *)

Module InitializerProofs.
Import Initializer Fixtures.

Lemma in_loop_leaves_connection t : Forall in_loop t -> Forall leaves_connection t.
Proof.
  intros H. eapply Forall_impl; [exact H|]. intros ev Hev. destruct ev; simpl in *; tauto.
Qed.

Lemma in_loop_no_list_calls t : Forall in_loop t -> list_calls t = [].
Proof.
  induction 1 as [|ev t Hev _ IH]; [reflexivity|].
  unfold list_calls in *. simpl. destruct ev; simpl in *; try tauto; exact IH.
Qed.

Lemma in_loop_no_error_reports t : Forall in_loop t -> error_reports t = [].
Proof.
  induction 1 as [|ev t Hev _ IH]; [reflexivity|].
  unfold error_reports in *. simpl. destruct ev; simpl in *; try tauto; exact IH.
Qed.

Lemma list_calls_app t1 t2 : list_calls (t1 ++ t2) = list_calls t1 ++ list_calls t2.
Proof. unfold list_calls. apply omap_app. Qed.

Lemma error_reports_app t1 t2 : error_reports (t1 ++ t2) = error_reports t1 ++ error_reports t2.
Proof. unfold error_reports. apply omap_app. Qed.

Section WatchFacts.

Variable St : Type.
Variable item_callback : Item -> St -> St * option exn.
Variable error_callback : exn -> St -> St * option exn.
Variable handle_single_item : Item -> St -> St * option exn.

Lemma read_lines_in_loop ls fin item s :
  Forall in_loop (snd (fst (read_lines St item_callback ls fin item s))).
Proof.
  revert item s. induction ls as [|ev rest IH]; intros item s; simpl.
  - destruct fin; constructor.
  - destruct (is_delivered (ev_type ev)).
    + destruct (item_callback (ev_object ev) s) as [s1 [e|]]; simpl.
      * repeat constructor.
      * specialize (IH (Some (ev_object ev)) s1).
        destruct (read_lines _ _ rest fin _ s1) as [[s2 t] r]. simpl in *.
        constructor; [exact I | exact IH].
    + destruct item as [it|]; simpl; [|constructor].
      specialize (IH (Some it) s).
      destruct (read_lines _ _ rest fin _ s) as [[s2 t] r]. simpl in *.
      constructor; [exact I | exact IH].
Qed.

Lemma process_lines_in_loop ls fin s :
  Forall in_loop (snd (fst (process_lines St handle_single_item ls fin s))).
Proof.
  revert s. induction ls as [|ev rest IH]; intros s; simpl.
  - destruct fin; constructor.
  - destruct (is_delivered (ev_type ev)).
    + destruct (handle_single_item (ev_object ev) s) as [s1 [e|]]; simpl.
      * repeat constructor.
      * specialize (IH s1).
        destruct (process_lines _ _ rest fin s1) as [[s2 t] r]. simpl in *.
        repeat (constructor; [exact I|]). exact IH.
    + specialize (IH s).
      destruct (process_lines _ _ rest fin s) as [[s2 t] r]. simpl in *.
      repeat (constructor; [exact I|]). exact IH.
Qed.

(** What [handle_response] does once the loop has ended with a timeout. *)
Lemma handle_response_timeout self resp s s1 t1 :
  read_lines St item_callback (lines resp) (ending_of resp) None s
    = (s1, t1, Some ReadTimeoutError) ->
  handle_response St item_callback error_callback self resp s =
    (s1, t1 ++ [LogDebug "Request timeout; ignoring."; Close; ReleaseConn;
                ListCall (watch_request self)], None).
Proof. intros H. unfold handle_response. rewrite H. reflexivity. Qed.

(** What it does once the loop has ended with any other [Exception] and the
    error callback has returned. *)
Lemma handle_response_error self resp s s1 t1 e s2 :
  read_lines St item_callback (lines resp) (ending_of resp) None s = (s1, t1, Some e) ->
  is_ReadTimeoutError e = false ->
  is_Exception e = true ->
  error_callback e s1 = (s2, None) ->
  handle_response St item_callback error_callback self resp s =
    (s2, t1 ++ [ErrorCallback e; Close; ReleaseConn; ListCall (watch_request self)], None).
Proof.
  intros H Ht He Hcb. unfold handle_response, except_clauses.
  rewrite H, Ht, He, Hcb. reflexivity.
Qed.

(** [n] idle streams in a row: [n] new requests, nothing else. *)
Lemma watch_loop_idle self n s :
  watch_loop St item_callback error_callback self (repeat idle n) s =
    (s, concat (repeat [LogDebug "Request timeout; ignoring."; Close; ReleaseConn;
                        ListCall (watch_request self)] n), None).
Proof.
  induction n as [|n IH]; [reflexivity|].
  simpl repeat. simpl watch_loop.
  rewrite IH. reflexivity.
Qed.

(** The item callback is called for delivered events only, in stream order:
    the objects it is called with are a prefix of the objects of the
    [ADDED]/[MODIFIED] events. *)
Lemma item_callbacks_prefix ls fin item s :
  item_callbacks (snd (fst (read_lines St item_callback ls fin item s)))
    `prefix_of` map ev_object (filter (fun ev => is_delivered (ev_type ev) = true) ls).
Proof.
  revert item s. induction ls as [|ev rest IH]; intros item s; simpl.
  - destruct fin; simpl; apply prefix_nil.
  - destruct (is_delivered (ev_type ev)) eqn:Hd.
    + rewrite filter_cons_True by exact Hd. simpl.
      destruct (item_callback (ev_object ev) s) as [s1 [e|]]; simpl.
      * apply prefix_cons, prefix_nil.
      * specialize (IH (Some (ev_object ev)) s1).
        destruct (read_lines _ _ rest fin _ s1) as [[s2 t] r]. simpl in *.
        apply prefix_cons. exact IH.
    + rewrite filter_cons_False by (rewrite Hd; discriminate).
      destruct item as [it|]; simpl; [|apply prefix_nil].
      specialize (IH (Some it) s).
      destruct (read_lines _ _ rest fin _ s) as [[s2 t] r]. simpl in *. exact IH.
Qed.

(** An event of another type is skipped, and the loop goes on, provided an
    earlier event of this response has bound [item]. *)
Lemma read_lines_skip_bound ev rest fin it s :
  is_delivered (ev_type ev) = false ->
  read_lines St item_callback (ev :: rest) fin (Some it) s =
    (let '(s2, t, r) := read_lines St item_callback rest fin (Some it) s in
     (s2, LogDebug (ignored_message (ev_type ev) it) :: t, r)).
Proof.
  intros Hd. simpl. rewrite Hd.
  destruct (read_lines _ _ rest fin _ s) as [[s2 t] r]. reflexivity.
Qed.

(** The same event as the first of a response ends the loop: [item] is not
    bound yet, and whatever follows on the stream is not read. *)
Lemma read_lines_skip_unbound ev rest fin s :
  is_delivered (ev_type ev) = false ->
  read_lines St item_callback (ev :: rest) fin None s =
    (s, [], Some (UnboundLocalError "item")).
Proof. intros Hd. simpl. rewrite Hd. reflexivity. Qed.

(** C6. When the loop over the watch stream ends with the read timeout,
    [handle_response] does not call the error callback, closes and releases
    the response, and issues exactly one new watch request, with the
    arguments of the first one (same list function, [include_uninitialized],
    [watch], request timeout).  Nothing bounds or delays the retries: [n]
    idle streams in a row give [n] new requests. *)
Theorem C6_idle_timeout_reissues_the_watch self resp s s1 t1 :
  read_lines St item_callback (lines resp) (ending_of resp) None s
    = (s1, t1, Some ReadTimeoutError) ->
  handle_response St item_callback error_callback self resp s =
    (s1, t1 ++ [LogDebug "Request timeout; ignoring."; Close; ReleaseConn;
                ListCall (watch_request self)], None)
  /\ error_reports (snd (fst (handle_response St item_callback error_callback self resp s))) = []
  /\ list_calls (snd (fst (handle_response St item_callback error_callback self resp s)))
       = [watch_request self]
  /\ async_list_items self = [ListCall (watch_request self)]
  /\ (forall n s0,
        watch_loop St item_callback error_callback self (repeat idle n) s0 =
          (s0, concat (repeat [LogDebug "Request timeout; ignoring."; Close; ReleaseConn;
                               ListCall (watch_request self)] n), None)).
Proof.
  intros H.
  pose proof (read_lines_in_loop (lines resp) (ending_of resp) None s) as Hloop.
  rewrite H in Hloop. simpl in Hloop.
  rewrite (handle_response_timeout self resp s s1 t1 H). simpl.
  repeat split.
  - rewrite error_reports_app, (in_loop_no_error_reports _ Hloop). reflexivity.
  - rewrite list_calls_app, (in_loop_no_list_calls _ Hloop). reflexivity.
  - intros n s0. apply watch_loop_idle.
Qed.

(** C8. However the watch loop ends (end of stream, read timeout, or any
    exception, from the stream or from a callback) the response is closed
    and then released, once, after the last callback and before
    [handle_response] returns, lets the exception escape, or issues the new
    watch request.  The same holds for the handler of
    [AsyncResourceHandler.async_process_items]. *)
Theorem C8_response_is_always_closed_and_released self resp s :
  (exists pre post s' r,
     handle_response St item_callback error_callback self resp s
       = (s', pre ++ [Close; ReleaseConn] ++ post, r)
     /\ Forall leaves_connection pre
     /\ ((r = None /\ post = [ListCall (watch_request self)]) \/
         (r <> None /\ post = [])))
  /\ (exists pre post s' r,
        async_handle_response St handle_single_item resp s
          = (s', pre ++ [Close; ReleaseConn] ++ post, r)
        /\ Forall leaves_connection pre
        /\ Forall leaves_connection post).
Proof.
  split.
  - unfold handle_response.
    pose proof (read_lines_in_loop (lines resp) (ending_of resp) None s) as Hloop.
    destruct (read_lines _ _ (lines resp) (ending_of resp) None s) as [[s1 t1] r1].
    simpl in Hloop. apply in_loop_leaves_connection in Hloop.
    assert (Hex : Forall leaves_connection (snd (fst (except_clauses St error_callback r1 s1)))).
    { unfold except_clauses. destruct r1 as [e|]; simpl; [|constructor].
      destruct (is_ReadTimeoutError e); simpl; [repeat constructor|].
      destruct (is_Exception e); simpl; [|constructor].
      destruct (error_callback e s1). simpl. repeat constructor. }
    destruct (except_clauses St error_callback r1 s1) as [[s2 t2] r2]. simpl in Hex.
    destruct r2 as [e|].
    + exists (t1 ++ t2), [], s2, (Some e). split; [|split].
      * rewrite <- app_assoc, app_nil_r. reflexivity.
      * apply Forall_app. split; assumption.
      * right. split; [discriminate | reflexivity].
    + exists (t1 ++ t2), [ListCall (watch_request self)], s2, None. split; [|split].
      * rewrite <- app_assoc. reflexivity.
      * apply Forall_app. split; assumption.
      * left. split; reflexivity.
  - unfold async_handle_response.
    pose proof (process_lines_in_loop (lines resp) (ending_of resp) s) as Hloop.
    destruct (process_lines _ _ (lines resp) (ending_of resp) s) as [[s1 t1] r1].
    simpl in Hloop. apply in_loop_leaves_connection in Hloop.
    destruct r1 as [e|].
    + exists t1, [], s1, (Some e). split; [|split].
      * reflexivity.
      * exact Hloop.
      * constructor.
    + exists (t1 ++ [Stdout "really doned"]), [Stdout "handler doned"], s1, None.
      split; [|split].
      * rewrite <- app_assoc. reflexivity.
      * apply Forall_app. split; [exact Hloop | repeat constructor].
      * repeat constructor.
Qed.

End WatchFacts.

(** A stream that idles after one delivered event. *)
Lemma C6_witness :
  handle_response (list exn) note_item log_error job_handler
    {| lines := [added_y]; ending_of := StreamRaises ReadTimeoutError |} [] =
    ([], [ItemCallback (ev_object added_y)]
           ++ [LogDebug "Request timeout; ignoring."; Close; ReleaseConn;
               ListCall (watch_request job_handler)], None).
Proof.
  exact (proj1 (C6_idle_timeout_reissues_the_watch (list exn) note_item log_error job_handler
                  {| lines := [added_y]; ending_of := StreamRaises ReadTimeoutError |}
                  [] [] [ItemCallback (ev_object added_y)] eq_refl)).
Defined.

(** C5, evaluated where the claim and the code part ways.  A response whose
    first event is [DELETED], followed by an [ADDED] event: the [else]
    branch reads the local [item], which no earlier event has bound, so the
    loop ends with [UnboundLocalError]; the error callback gets it, the
    [ADDED] event behind it on the same stream is never delivered, and a
    new watch is requested.  (Behind a delivered event the same [DELETED]
    event is skipped and the loop goes on.) *)
Theorem C5_first_event_of_other_type_ends_the_stream :
  handle_response (list exn) note_item log_error job_handler
    {| lines := [deleted_x; added_y]; ending_of := EndOfStream |} [] =
    ([UnboundLocalError "item"],
     [ErrorCallback (UnboundLocalError "item"); Close; ReleaseConn;
      ListCall (watch_request job_handler)], None)
  /\ item_callbacks
       (snd (fst (handle_response (list exn) note_item log_error job_handler
                    {| lines := [deleted_x; added_y]; ending_of := EndOfStream |} []))) = []
  /\ item_callbacks
       (snd (fst (handle_response (list exn) note_item log_error job_handler
                    {| lines := [error_first; added_y]; ending_of := EndOfStream |} []))) = []
  /\ item_callbacks
       (snd (fst (handle_response (list exn) note_item log_error job_handler
                    {| lines := [added_y; deleted_x; modified_y]; ending_of := EndOfStream |} [])))
     = [ev_object added_y; ev_object modified_y].
Proof. repeat split; vm_compute; reflexivity. Qed.

(** C7, evaluated where the claim and the code part ways.  A stream that
    breaks with a connection error, and an error callback that logs and
    returns: the callback is called with the error and the response is
    closed and released; then [handle_response] itself issues the new watch
    request, the same one as after a timeout. *)
Theorem C7_watcher_restarts_after_a_fatal_error :
  handle_response (list exn) note_item log_error job_handler broken [] =
    ([connection_reset],
     [ErrorCallback connection_reset; Close; ReleaseConn;
      ListCall (watch_request job_handler)], None)
  /\ list_calls
       (snd (fst (handle_response (list exn) note_item log_error job_handler broken [])))
     = list_calls
         (snd (fst (handle_response (list exn) note_item log_error job_handler idle []))).
Proof. split; vm_compute; reflexivity. Qed.

(** The handlers this package constructs all send updates with a
    [replace_] function, as the docstring of [ResourceHandler.__init__]
    demands ("this *must* be a replace_ method, NOT a patch_ method"). *)
Lemma factories_use_replace :
  Forall (fun hd => semantics_of (_update_item hd) = FullReplace) factories.
Proof. repeat constructor. Qed.

Example update_item_replaces :
  update_item job_handler (job "j1" (Some 10%positive))
  = UpdateCall replace_namespaced_job "j1" "default" (job "j1" (Some 10%positive)).
Proof. reflexivity. Qed.

End InitializerProofs.

(** ** Further properties of the label controller *)

Module LabelizerExtras.
Import Labelizer LabelizerProofs Notions Fixtures.

(** *** rejection.py *)

(** X1. The status of a [Rejection] keeps the message, code and details it
    was built with and always has status ["Failure"].  Its reason is the
    message when no reason, or the empty string, is given, and the given
    reason otherwise; so the reason is never empty unless the message is. *)
Theorem X1_Rejection_status msg r c d :
  message (Rejection_init msg r c d) = msg
  /\ code (Rejection_init msg r c d) = c
  /\ details (Rejection_init msg r c d) = d
  /\ status (Rejection_init msg r c d) = "Failure"
  /\ (r = None \/ r = Some "" -> reason (Rejection_init msg r c d) = msg)
  /\ (forall s, r = Some s -> s <> "" -> reason (Rejection_init msg r c d) = s)
  /\ (msg <> "" -> reason (Rejection_init msg r c d) <> "").
Proof.
  repeat split.
  - intros [-> | ->]; reflexivity.
  - intros s -> Hs. unfold Rejection_init, truthy_reason. simpl.
    rewrite bool_decide_eq_false_2 by exact Hs. reflexivity.
  - intros Hm. unfold Rejection_init, truthy_reason. destruct r as [s|]; simpl.
    + destruct (bool_decide (s = "")) eqn:Hd; simpl.
      * exact Hm.
      * apply bool_decide_eq_false in Hd. exact Hd.
    + exact Hm.
Qed.

(** *** The shape of a pass *)

Lemma advance_block_shape w self o u h :
  trace_of (advance_block w self o u h) = [] \/
  exists n ns b, trace_of (advance_block w self o u h)
                 = [EvUpdate (patch_namespaced_item (handler self)) n ns b].
Proof.
  unfold advance_block, patch_item, initializers_ref, pending_rest, set_pending_at,
    read_item, bind, get, emit, ret, raise, trace_of.
  repeat (case_match; simplify_eq; simpl in *); eauto.
Qed.

Lemma loop_body_shape w self l h :
  item_chunk self l (trace_of (loop_body w self l h)).
Proof.
  unfold item_chunk, loop_body, try_except_Rejection, call_handle_item.
  unfold patch_item, initializers_ref, pending_rest, set_pending_at, set_result_at,
    read_item, bind, get, emit, ret, raise, trace_of.
  repeat (case_match; simplify_eq; simpl in *); eauto 10.
Qed.

Lemma for_each_cons body l ls h :
  for_each body (l :: ls) h =
    match body l h with
    | (h1, t1, inl _) =>
        match for_each body ls h1 with
        | (h2, t2, r) => (h2, t1 ++ t2, r)
        end
    | (h1, t1, inr e) => (h1, t1, inr e)
    end.
Proof. reflexivity. Qed.

Lemma handle_update_unfold w self h :
  handle_update w self h =
    match list_response w (list_item_for_all_namespaces (handler self)) with
    | inl ls =>
        match for_each (loop_body w self) ls h with
        | (h1, t, r) => (h1, EvList (list_item_for_all_namespaces (handler self)) :: t, r)
        end
    | inr e => (h, [EvList (list_item_for_all_namespaces (handler self))], inr e)
    end.
Proof.
  unfold handle_update, list_all_items, bind, emit, ret, raise.
  destruct (list_response w _) as [ls|e]; simpl; [|reflexivity].
  destruct (for_each (loop_body w self) ls h) as [[h1 t] r]. reflexivity.
Qed.

(** The trace of the loop is made of one chunk per visited item; the items
    visited are a prefix of the list (all of it unless an exception ends the
    pass). *)
Lemma for_each_chunks w self ls h :
  exists chunks,
    trace_of (for_each (loop_body w self) ls h) = concat chunks
    /\ Forall2 (item_chunk self) (take (length chunks) ls) chunks
    /\ (forall u, snd (for_each (loop_body w self) ls h) = inl u ->
        length chunks = length ls).
Proof.
  revert h. induction ls as [|l ls IH]; intros h.
  - exists []. simpl. repeat split; constructor.
  - rewrite for_each_cons. pose proof (loop_body_shape w self l h) as Hc.
    destruct (loop_body w self l h) as [[h1 t1] [[]|e]]; unfold trace_of in Hc; simpl in Hc.
    + destruct (IH h1) as (chunks & Ht & Hf & Hlen).
      destruct (for_each (loop_body w self) ls h1) as [[h2 t2] r].
      unfold trace_of in *. simpl in *.
      exists (t1 :: chunks). simpl. rewrite Ht. repeat split.
      * constructor; assumption.
      * intros u Hu. f_equal. exact (Hlen u Hu).
    + exists [t1]. unfold trace_of. simpl. rewrite app_nil_r.
      split; [reflexivity|]. split.
      * rewrite take_0. constructor; [exact Hc | constructor].
      * intros u Hu. discriminate Hu.
Qed.

(** X2. Whatever the handler and the API server do, a pass of
    [handle_update] is the list call followed by one chunk per visited item,
    in the order of the list: nothing for an item, or one handler call for
    it, or one handler call for it directly followed by one update through
    the handler's update function.  No item gets a second handler call or a
    second update, and all items are visited when the pass ends without an
    exception. *)
Theorem X2_pass_is_one_chunk_per_item w self h ls :
  list_response w (list_item_for_all_namespaces (handler self)) = inl ls ->
  exists chunks,
    trace_of (handle_update w self h)
      = EvList (list_item_for_all_namespaces (handler self)) :: concat chunks
    /\ Forall2 (item_chunk self) (take (length chunks) ls) chunks
    /\ (forall u, snd (handle_update w self h) = inl u -> length chunks = length ls).
Proof.
  intros Hls. rewrite handle_update_unfold, Hls.
  destruct (for_each_chunks w self ls h) as (chunks & Ht & Hf & Hlen).
  destruct (for_each (loop_body w self) ls h) as [[h1 t] r].
  unfold trace_of in *. simpl in *.
  exists chunks. rewrite Ht. repeat split; assumption.
Qed.

Lemma X2_witness :
  exists chunks,
    trace_of (handle_update (api [1%positive; 2%positive])
                (job_controller accept_unchanged) store0)
      = EvList list_job_for_all_namespaces :: concat chunks
    /\ Forall2 (item_chunk (job_controller accept_unchanged))
               (take (length chunks) [1%positive; 2%positive]) chunks
    /\ (forall u, snd (handle_update (api [1%positive; 2%positive])
                         (job_controller accept_unchanged) store0) = inl u ->
        length chunks = 2).
Proof.
  exact (X2_pass_is_one_chunk_per_item (api [1%positive; 2%positive])
           (job_controller accept_unchanged) store0 [1%positive; 2%positive] eq_refl).
Defined.

(** *** Exceptions that are not rejections *)

Lemma for_each_skip_prefix w self pre rest h :
  Forall (fun l => exists it, items h !! l = Some it /\
                              ineligible h it (initializer_name self)) pre ->
  for_each (loop_body w self) (pre ++ rest) h = for_each (loop_body w self) rest h.
Proof.
  induction 1 as [|l pre (it & Hit & Hin) _ IH]; [reflexivity|].
  simpl app. rewrite for_each_cons.
  rewrite (loop_body_skip w self l h it Hit (ineligible_gate _ _ _ Hin)).
  rewrite IH. destruct (for_each (loop_body w self) rest h) as [[h2 t2] r]. reflexivity.
Qed.

(** X3. An exception from a handler that is not a [Rejection] is not caught:
    it ends the pass at that item.  The items before it that were not
    eligible contributed nothing, no update is sent for the item, the items
    behind it are not visited, and the store is as the handler left it. *)
Theorem X3_other_exception_ends_the_pass w self pre l post h it h1 e :
  list_response w (list_item_for_all_namespaces (handler self)) = inl (pre ++ l :: post) ->
  Forall (fun l' => exists it', items h !! l' = Some it' /\
                                ineligible h it' (initializer_name self)) pre ->
  items h !! l = Some it ->
  gate h (initializers (metadata it)) (initializer_name self) = true ->
  handle_item (handler self) l h = (h1, inr e) ->
  (forall st, e <> Rejection st) ->
  handle_update w self h =
    (h1, [EvList (list_item_for_all_namespaces (handler self)); EvHandle l], inr e).
Proof.
  intros Hls Hpre Hit Hg Hh Hne.
  rewrite handle_update_unfold, Hls, (for_each_skip_prefix w self pre (l :: post) h Hpre).
  rewrite for_each_cons, (loop_body_raise w self l h it h1 e Hit Hg Hh Hne). reflexivity.
Qed.

Lemma X3_witness :
  handle_update (api [2%positive; 1%positive; 3%positive])
    (job_controller MoreFixtures.crash) store0 =
    (store0, [EvList list_job_for_all_namespaces; EvHandle 1%positive],
     inr (OtherError "boom")).
Proof.
  apply (X3_other_exception_ends_the_pass (api [2%positive; 1%positive; 3%positive])
           (job_controller MoreFixtures.crash) [2%positive] 1%positive [3%positive]
           store0 (job "j1" (Some 10%positive)) store0 (OtherError "boom") eq_refl).
  - constructor; [|constructor]. exists (job "j2" (Some 20%positive)).
    split; [reflexivity|]. vm_compute. intros H. discriminate H.
  - reflexivity.
  - reflexivity.
  - reflexivity.
  - intros st H. discriminate H.
Defined.

(** X4. When the handler returns an object whose [metadata.initializers] is
    [None], writing the new pending list raises [AttributeError]: the pass
    ends there, no update is sent for the item, and the store is as the
    handler left it. *)
Theorem X4_returned_object_without_initializers
    w self l h it li h1 u ini q it1 :
  items h !! l = Some it ->
  initializers (metadata it) = Some li ->
  gate h (Some li) (initializer_name self) = true ->
  handle_item (handler self) l h = (h1, inl u) ->
  inits h1 !! li = Some ini ->
  pending ini = Some q ->
  items h1 !! u = Some it1 ->
  initializers (metadata it1) = None ->
  loop_body w self l h = (h1, [EvHandle l], inr (AttributeError "pending")).
Proof.
  intros Hit Hli Hg Hh Hini Hq Hit1 Hnone.
  rewrite <- Hli in Hg.
  rewrite (loop_body_accept w self l h it h1 u Hit Hg Hh), Hli.
  unfold advance_block.
  rewrite (bind_inl _ _ _ _ _ _ (pending_rest_some _ _ _ _ Hini Hq)).
  unfold initializers_ref.
  rewrite (bind_inr (bind (read_item u) _) _ h1 h1 [] (AttributeError "pending")).
  - reflexivity.
  - rewrite (bind_inl _ _ _ _ _ _ (read_item_some _ _ _ Hit1)). rewrite Hnone. reflexivity.
Qed.

Lemma X4_witness :
  exists h1,
    loop_body (api [1%positive]) (job_controller MoreFixtures.strip_initializers)
      1%positive store0 = (h1, [EvHandle 1%positive], inr (AttributeError "pending")).
Proof.
  eexists.
  apply (X4_returned_object_without_initializers (api [1%positive])
           (job_controller MoreFixtures.strip_initializers) 1%positive store0
           (job "j1" (Some 10%positive)) 10%positive _ 1%positive
           {| pending := Some [initA]; result := None |} [initA]
           (job "j1" None)); reflexivity.
Defined.

(** *** What the controller writes *)

(** X5. The controller never writes to an item: after the loop body the
    items of the store are those the handler left (those of before, for an
    item that is skipped).  Of the initializers objects it writes to at most
    one; all others are as the handler left them. *)
Theorem X5_controller_writes_one_initializers_object w self l h :
  let after_handler :=
    match items h !! l with
    | Some it =>
        if gate h (initializers (metadata it)) (initializer_name self)
        then fst (handle_item (handler self) l h)
        else h
    | None => h
    end in
  items (fst (fst (loop_body w self l h))) = items after_handler
  /\ exists lj, forall lk, lk <> lj ->
       inits (fst (fst (loop_body w self l h))) !! lk = inits after_handler !! lk.
Proof.
  unfold loop_body, try_except_Rejection, call_handle_item.
  unfold patch_item, initializers_ref, pending_rest, set_pending_at, set_result_at,
    read_item, bind, get, emit, ret, raise.
  simpl.
  repeat (case_match; simplify_eq; simpl in *);
    (split; [reflexivity|]);
    try (exists 1%positive; intros; reflexivity);
    match goal with
    | |- context [<[?lj := _]> _] =>
        exists lj; intros lk Hlk; rewrite ?lookup_insert_ne by congruence; reflexivity
    end.
Qed.

(** *** The inherited handler *)

Lemma loop_body_inherited w self l h :
  handle_item (handler self) = default_handle_item ->
  loop_body w self l h = (h, [], inl tt)
  \/ loop_body w self l h = (h, [], inr (AttributeError "metadata"))
  \/ loop_body w self l h = (h, [EvHandle l], inr (AttributeError "metadtata")).
Proof.
  intros Hd. destruct (items h !! l) as [it|] eqn:Hit.
  - destruct (gate h (initializers (metadata it)) (initializer_name self)) eqn:Hg.
    + right. right. apply (loop_body_raise w self l h it h (AttributeError "metadtata") Hit Hg).
      * rewrite Hd. unfold default_handle_item. rewrite Hit. reflexivity.
      * intros st H. discriminate H.
    + left. exact (loop_body_skip w self l h it Hit Hg).
  - right. left. unfold loop_body, bind, read_item. rewrite Hit. reflexivity.
Qed.

Lemma for_each_inherited w self ls h :
  handle_item (handler self) = default_handle_item ->
  fst (fst (for_each (loop_body w self) ls h)) = h
  /\ updates (trace_of (for_each (loop_body w self) ls h)) = [].
Proof.
  intros Hd. induction ls as [|l ls [IHh IHu]]; [split; reflexivity|].
  rewrite for_each_cons.
  destruct (loop_body_inherited w self l h Hd) as [-> | [-> | ->]]; try (split; reflexivity).
  destruct (for_each (loop_body w self) ls h) as [[h2 t2] r].
  unfold trace_of in *. simpl in *. split; assumption.
Qed.

(** X6. A controller over a handler that keeps the inherited [handle_item]
    (as [PodHandler], [JobHandler] and [DaemonSetHandler] do until a child
    class overrides it) never sends an update and never changes the store,
    whatever is listed. *)
Theorem X6_inherited_handler_never_updates w self h :
  handle_item (handler self) = default_handle_item ->
  fst (fst (handle_update w self h)) = h
  /\ updates (trace_of (handle_update w self h)) = [].
Proof.
  intros Hd. rewrite handle_update_unfold.
  destruct (list_response w _) as [ls|e]; [|split; reflexivity].
  destruct (for_each_inherited w self ls h Hd) as [Hh Hu].
  destruct (for_each (loop_body w self) ls h) as [[h1 t] r].
  unfold trace_of in *. simpl in *. split; assumption.
Qed.

Lemma X6_witness :
  fst (fst (handle_update (api [1%positive; 3%positive])
              {| initializer_name := "initA"; handler := PodHandler |} store0)) = store0
  /\ updates (trace_of (handle_update (api [1%positive; 3%positive])
                          {| initializer_name := "initA"; handler := PodHandler |} store0)) = [].
Proof.
  exact (X6_inherited_handler_never_updates (api [1%positive; 3%positive])
           {| initializer_name := "initA"; handler := PodHandler |} store0 eq_refl).
Defined.

Lemma X13_witness :
  exists h' b,
    loop_body (api [1%positive]) (job_controller label_then_reject) 1%positive store0 =
      (h', [EvHandle 1%positive; EvUpdate patch_namespaced_job "j1" "default" b], inl tt)
    /\ b_ref b = 1%positive
    /\ b_item b = {| metadata := metadata (job "j1" (Some 10%positive));
                     spec := "image: rewritten" |}
    /\ body_result b = Some (Rejection_init "bad image" None 403 None)
    /\ body_queue b = [].
Proof.
  exact (rejection_sends_the_handled_reference (api [1%positive])
           (job_controller label_then_reject) store0 1%positive
           (job "j1" (Some 10%positive)) _
           (Rejection_init "bad image" None 403 None)
           {| metadata := metadata (job "j1" (Some 10%positive)); spec := "image: rewritten" |}
           10%positive {| pending := Some [initA]; result := None |}
           10%positive {| pending := Some [initA]; result := None |} [initA]
           eq_refl eq_refl eq_refl eq_refl eq_refl eq_refl eq_refl eq_refl eq_refl).
Defined.

(** X14. On acceptance the controller sends the object the handler
    returned, as it stands in the store after the call, and does not touch
    [initializers.result]: the update carries whatever result the returned
    object already had.  Only the pending list is replaced. *)
Theorem X14_accepted_object_is_sent_as_returned
    w self h l it li h1 u ini q it1 lj inj :
  items h !! l = Some it ->
  initializers (metadata it) = Some li ->
  gate h (Some li) (initializer_name self) = true ->
  handle_item (handler self) l h = (h1, inl u) ->
  inits h1 !! li = Some ini ->
  pending ini = Some q ->
  items h1 !! u = Some it1 ->
  initializers (metadata it1) = Some lj ->
  inits h1 !! lj = Some inj ->
  exists h' b,
    loop_body w self l h =
      (h', [EvHandle l;
            EvUpdate (patch_namespaced_item (handler self))
                     (name (metadata it1)) (namespace (metadata it1)) b],
       update_outcome w (patch_namespaced_item (handler self))
                      (name (metadata it1)) (namespace (metadata it1)) b)
    /\ b_ref b = u /\ b_item b = it1
    /\ body_result b = result inj
    /\ body_queue b = tail q
    /\ items h' = items h1.
Proof.
  intros Hit Hli Hg Hh Hini Hq Hit1 Hlj Hinj. rewrite <- Hli in Hg.
  rewrite (loop_body_accept w self l h it h1 u Hit Hg Hh), Hli.
  rewrite (advance_block_run w self li u h1 ini q it1 lj inj Hini Hq Hit1 Hlj Hinj).
  simpl. eexists _, _. repeat split; reflexivity.
Qed.

Lemma X14_witness :
  exists h' b,
    loop_body (api [3%positive]) (job_controller accept_unchanged) 3%positive store0 =
      (h', [EvHandle 3%positive; EvUpdate patch_namespaced_job "j3" "default" b], inl tt)
    /\ b_ref b = 3%positive /\ b_item b = job "j3" (Some 30%positive)
    /\ body_result b = None
    /\ body_queue b = [otherInit]
    /\ items h' = items store0.
Proof.
  exact (X14_accepted_object_is_sent_as_returned (api [3%positive])
           (job_controller accept_unchanged) store0 3%positive
           (job "j3" (Some 30%positive)) 30%positive store0 3%positive
           {| pending := Some [initA; otherInit]; result := None |} [initA; otherInit]
           (job "j3" (Some 30%positive)) 30%positive
           {| pending := Some [initA; otherInit]; result := None |}
           eq_refl eq_refl eq_refl eq_refl eq_refl eq_refl eq_refl eq_refl eq_refl).
Defined.

End LabelizerExtras.

(** ** Further properties of the watcher *)

Module InitializerExtras.
Import Initializer InitializerProofs Notions Fixtures.

Lemma item_callbacks_app t1 t2 :
  item_callbacks (t1 ++ t2) = item_callbacks t1 ++ item_callbacks t2.
Proof. unfold item_callbacks. apply omap_app. Qed.

Lemma except_clauses_trace St (error_callback : exn -> St -> St * option exn) r s :
  snd (fst (except_clauses St error_callback r s)) =
    match r with
    | Some e =>
        if is_ReadTimeoutError e then [LogDebug "Request timeout; ignoring."]
        else if is_Exception e then [ErrorCallback e]
        else []
    | None => []
    end.
Proof.
  unfold except_clauses. destruct r as [e|]; [|reflexivity].
  destruct (is_ReadTimeoutError e); [reflexivity|].
  destruct (is_Exception e); [|reflexivity].
  destruct (error_callback e s). reflexivity.
Qed.

Lemma handle_response_trace St item_callback error_callback self resp s :
  exists tail,
    snd (fst (handle_response St item_callback error_callback self resp s)) =
      snd (fst (read_lines St item_callback (lines resp) (ending_of resp) None s))
      ++ snd (fst (except_clauses St error_callback
                     (snd (read_lines St item_callback (lines resp) (ending_of resp) None s))
                     (fst (fst (read_lines St item_callback (lines resp)
                                  (ending_of resp) None s)))))
      ++ tail
    /\ (tail = [Close; ReleaseConn] \/
        tail = [Close; ReleaseConn; ListCall (watch_request self)]).
Proof.
  unfold handle_response.
  destruct (read_lines St item_callback (lines resp) (ending_of resp) None s) as [[s1 t1] r1].
  simpl. destruct (except_clauses St error_callback r1 s1) as [[s2 t2] [e|]]; simpl.
  - exists [Close; ReleaseConn]. split; [reflexivity | left; reflexivity].
  - exists [Close; ReleaseConn; ListCall (watch_request self)].
    split; [reflexivity | right; reflexivity].
Qed.

(** X7. Whatever the stream and the callbacks do, [handle_response] calls
    the item callback only with objects of [ADDED]/[MODIFIED] events of the
    response, each at most once and in stream order: the objects it was
    called with are a prefix of those events' objects. *)
Theorem X7_item_callback_gets_delivered_events_in_order
    St item_callback error_callback self resp s :
  item_callbacks (snd (fst (handle_response St item_callback error_callback self resp s)))
    `prefix_of` delivered_objects (lines resp).
Proof.
  destruct (handle_response_trace St item_callback error_callback self resp s)
    as (tail & -> & Htail).
  rewrite !item_callbacks_app, except_clauses_trace.
  assert (Hnone : forall t, t = [Close; ReleaseConn] \/
                            t = [Close; ReleaseConn; ListCall (watch_request self)] ->
                            item_callbacks t = []).
  { intros t [-> | ->]; reflexivity. }
  rewrite (Hnone tail Htail).
  pose proof (item_callbacks_prefix St item_callback (lines resp) (ending_of resp) None s) as Hp.
  destruct (snd (read_lines St item_callback (lines resp) (ending_of resp) None s)) as [e|];
    [destruct (is_ReadTimeoutError e); [|destruct (is_Exception e)]|];
    simpl; rewrite app_nil_r; exact Hp.
Qed.

Lemma read_lines_bound_all St (item_callback : Item -> St -> St * option exn) ls fin it s :
  (forall i s0, snd (item_callback i s0) = None) ->
  item_callbacks (snd (fst (read_lines St item_callback ls fin (Some it) s)))
    = delivered_objects ls
  /\ snd (read_lines St item_callback ls fin (Some it) s) = ending_result fin.
Proof.
  intros Hok. revert it s. induction ls as [|ev rest IH]; intros it s.
  - simpl. destruct fin; split; reflexivity.
  - unfold delivered_objects. simpl read_lines.
    destruct (is_delivered (ev_type ev)) eqn:Hd.
    + rewrite filter_cons_True by exact Hd.
      pose proof (Hok (ev_object ev) s) as Hcb.
      destruct (item_callback (ev_object ev) s) as [s1 [e|]]; [discriminate Hcb|].
      destruct (IH (ev_object ev) s1) as [IHc IHr].
      destruct (read_lines St item_callback rest fin (Some (ev_object ev)) s1) as [[s2 t] r].
      simpl in *. split; [|exact IHr]. unfold item_callbacks at 1. simpl.
      f_equal. exact IHc.
    + rewrite filter_cons_False by (rewrite Hd; discriminate).
      destruct (IH it s) as [IHc IHr].
      destruct (read_lines St item_callback rest fin (Some it) s) as [[s2 t] r].
      simpl in *. split; [exact IHc | exact IHr].
Qed.

(** X8. If the first event of a response is [ADDED] or [MODIFIED] and the
    item callback does not raise, every [ADDED]/[MODIFIED] event of the
    response is delivered, in order, events of other types in between are
    skipped, and the loop ends the way the stream ends. *)
Theorem X8_stream_with_a_delivered_first_event_is_read_to_its_end
    St item_callback error_callback self resp s ev rest :
  lines resp = ev :: rest ->
  is_delivered (ev_type ev) = true ->
  (forall i s0, snd (item_callback i s0) = None) ->
  item_callbacks (snd (fst (handle_response St item_callback error_callback self resp s)))
    = delivered_objects (lines resp)
  /\ snd (read_lines St item_callback (lines resp) (ending_of resp) None s)
     = ending_result (ending_of resp).
Proof.
  intros Hl Hd Hok.
  assert (Hloop :
    item_callbacks (snd (fst (read_lines St item_callback (lines resp)
                                (ending_of resp) None s)))
      = delivered_objects (lines resp)
    /\ snd (read_lines St item_callback (lines resp) (ending_of resp) None s)
       = ending_result (ending_of resp)).
  { rewrite Hl. unfold delivered_objects. simpl read_lines. rewrite Hd.
    rewrite filter_cons_True by exact Hd.
    pose proof (Hok (ev_object ev) s) as Hcb.
    destruct (item_callback (ev_object ev) s) as [s1 [e|]]; [discriminate Hcb|].
    destruct (read_lines_bound_all St item_callback rest (ending_of resp)
                (ev_object ev) s1 Hok) as [Hc Hr].
    destruct (read_lines St item_callback rest (ending_of resp) (Some (ev_object ev)) s1)
      as [[s2 t] r].
    simpl in *. split; [|exact Hr]. unfold item_callbacks at 1. simpl. f_equal. exact Hc. }
  destruct Hloop as [Hc Hr]. split; [|exact Hr].
  destruct (handle_response_trace St item_callback error_callback self resp s)
    as (tail & -> & Htail).
  rewrite !item_callbacks_app, except_clauses_trace, Hc.
  assert (Ht : item_callbacks tail = []) by (destruct Htail as [-> | ->]; reflexivity).
  rewrite Ht.
  destruct (snd (read_lines St item_callback (lines resp) (ending_of resp) None s)) as [e|];
    [destruct (is_ReadTimeoutError e); [|destruct (is_Exception e)]|];
    simpl; rewrite app_nil_r; reflexivity.
Qed.

Lemma X8_witness :
  item_callbacks
    (snd (fst (handle_response (list exn) note_item log_error job_handler
                 {| lines := [added_y; deleted_x; modified_y];
                    ending_of := StreamRaises connection_reset |} [])))
    = [ev_object added_y; ev_object modified_y]
  /\ snd (read_lines (list exn) note_item [added_y; deleted_x; modified_y]
            (StreamRaises connection_reset) None [])
     = Some connection_reset.
Proof.
  exact (X8_stream_with_a_delivered_first_event_is_read_to_its_end
           (list exn) note_item log_error job_handler
           {| lines := [added_y; deleted_x; modified_y];
              ending_of := StreamRaises connection_reset |}
           [] added_y [deleted_x; modified_y] eq_refl eq_refl
           (fun _ _ => eq_refl)).
Defined.

(** X9. The error callback is called at most once per response: exactly
    once, with the exception that ended the loop, when that exception is an
    [Exception] other than the read timeout, and not at all otherwise (end
    of stream, read timeout, or an exception outside [Exception]). *)
Theorem X9_error_callback_is_called_for_the_fatal_exception_only
    St item_callback error_callback self resp s :
  error_reports (snd (fst (handle_response St item_callback error_callback self resp s))) =
    match snd (read_lines St item_callback (lines resp) (ending_of resp) None s) with
    | Some e =>
        if is_ReadTimeoutError e then []
        else if is_Exception e then [e]
        else []
    | None => []
    end.
Proof.
  destruct (handle_response_trace St item_callback error_callback self resp s)
    as (tail & -> & Htail).
  rewrite !error_reports_app, except_clauses_trace.
  rewrite (in_loop_no_error_reports _
             (read_lines_in_loop St item_callback (lines resp) (ending_of resp) None s)).
  assert (Ht : error_reports tail = []) by (destruct Htail as [-> | ->]; reflexivity).
  rewrite Ht.
  destruct (snd (read_lines St item_callback (lines resp) (ending_of resp) None s)) as [e|];
    [destruct (is_ReadTimeoutError e); [|destruct (is_Exception e)]|]; reflexivity.
Qed.

(** *** The chain of watch requests *)

Lemma read_lines_raises_Exception St (item_callback : Item -> St -> St * option exn)
    ls fin item s e :
  (forall i s0 e0, snd (item_callback i s0) = Some e0 -> is_Exception e0 = true) ->
  (forall e0, fin = StreamRaises e0 -> is_Exception e0 = true) ->
  snd (read_lines St item_callback ls fin item s) = Some e ->
  is_Exception e = true.
Proof.
  intros Hcb Hfin. revert item s. induction ls as [|ev rest IH]; intros item s; simpl.
  - destruct fin as [|e0]; simpl; [discriminate|].
    intros [= <-]. apply (Hfin e0). reflexivity.
  - destruct (is_delivered (ev_type ev)).
    + pose proof (Hcb (ev_object ev) s) as Hc.
      destruct (item_callback (ev_object ev) s) as [s1 [e0|]]; simpl in *.
      * intros [= <-]. apply Hc. reflexivity.
      * specialize (IH (Some (ev_object ev)) s1).
        destruct (read_lines St item_callback rest fin (Some (ev_object ev)) s1)
          as [[s2 t] r]. exact IH.
    + destruct item as [it|]; simpl.
      * specialize (IH (Some it) s).
        destruct (read_lines St item_callback rest fin (Some it) s) as [[s2 t] r]. exact IH.
      * intros [= <-]. reflexivity.
Qed.

Lemma handle_response_returns St item_callback error_callback self resp s :
  (forall e s0, snd (error_callback e s0) = None) ->
  (forall i s0 e0, snd (item_callback i s0) = Some e0 -> is_Exception e0 = true) ->
  (forall e0, ending_of resp = StreamRaises e0 -> is_Exception e0 = true) ->
  snd (handle_response St item_callback error_callback self resp s) = None
  /\ list_calls (snd (fst (handle_response St item_callback error_callback self resp s)))
     = [watch_request self].
Proof.
  intros Hecb Hicb Hfin. unfold handle_response.
  pose proof (read_lines_in_loop St item_callback (lines resp) (ending_of resp) None s) as Hloop.
  pose proof (read_lines_raises_Exception St item_callback (lines resp) (ending_of resp)
                None s) as Hexc.
  destruct (read_lines St item_callback (lines resp) (ending_of resp) None s) as [[s1 t1] r1].
  simpl in Hloop, Hexc.
  assert (Hex : snd (except_clauses St error_callback r1 s1) = None
                /\ list_calls (snd (fst (except_clauses St error_callback r1 s1))) = []).
  { unfold except_clauses. destruct r1 as [e|]; [|split; reflexivity].
    destruct (is_ReadTimeoutError e); [split; reflexivity|].
    rewrite (Hexc e Hicb Hfin eq_refl).
    pose proof (Hecb e s1) as Hc. destruct (error_callback e s1) as [s2 r2].
    simpl in *. split; [exact Hc | reflexivity]. }
  destruct (except_clauses St error_callback r1 s1) as [[s2 t2] r2].
  simpl in Hex. destruct Hex as [-> Ht2]. simpl. split; [reflexivity|].
  rewrite !list_calls_app, (in_loop_no_list_calls _ Hloop), Ht2. reflexivity.
Qed.

(** X10. When the error callback does not raise and everything the streams
    and the item callback raise is an [Exception], the chain of watch
    requests never ends: every response, however it terminates (end of
    stream, timeout, error, or an event of another type first), is followed
    by exactly one new request with the same arguments. *)
Theorem X10_every_response_is_followed_by_a_new_watch
    St item_callback error_callback self resps s :
  (forall e s0, snd (error_callback e s0) = None) ->
  (forall i s0 e0, snd (item_callback i s0) = Some e0 -> is_Exception e0 = true) ->
  Forall (fun resp => forall e0, ending_of resp = StreamRaises e0 -> is_Exception e0 = true)
         resps ->
  snd (watch_loop St item_callback error_callback self resps s) = None
  /\ list_calls (snd (fst (watch_loop St item_callback error_callback self resps s)))
     = repeat (watch_request self) (length resps).
Proof.
  intros Hecb Hicb Hall. revert s.
  induction Hall as [|resp resps Hfin _ IH]; intros s; [split; reflexivity|].
  simpl watch_loop.
  destruct (handle_response_returns St item_callback error_callback self resp s
              Hecb Hicb Hfin) as [Hr Hc].
  destruct (handle_response St item_callback error_callback self resp s) as [[s1 t1] r1].
  simpl in Hr, Hc. subst r1.
  destruct (IH s1) as [IHr IHc].
  destruct (watch_loop St item_callback error_callback self resps s1) as [[s2 t2] r2].
  simpl in *. split; [exact IHr|].
  rewrite list_calls_app, Hc, IHc. reflexivity.
Qed.

Lemma X10_witness :
  snd (watch_loop (list exn) note_item log_error job_handler
         [idle; broken; {| lines := [deleted_x; added_y]; ending_of := EndOfStream |}] [])
    = None
  /\ list_calls
       (snd (fst (watch_loop (list exn) note_item log_error job_handler
                    [idle; broken;
                     {| lines := [deleted_x; added_y]; ending_of := EndOfStream |}] [])))
     = repeat (watch_request job_handler) 3.
Proof.
  apply (X10_every_response_is_followed_by_a_new_watch
           (list exn) note_item log_error job_handler
           [idle; broken; {| lines := [deleted_x; added_y]; ending_of := EndOfStream |}] []).
  - intros e s0. reflexivity.
  - intros i s0 e0 H. discriminate H.
  - repeat constructor; simpl; intros e0 H; try discriminate H;
      injection H as <-; reflexivity.
Defined.

(** *** async_resource_handler.py *)

Lemma process_lines_all St (handle_single_item : Item -> St -> St * option exn) ls fin s :
  (forall i s0, snd (handle_single_item i s0) = None) ->
  item_callbacks (snd (fst (process_lines St handle_single_item ls fin s)))
    = delivered_objects ls
  /\ snd (process_lines St handle_single_item ls fin s) = ending_result fin.
Proof.
  intros Hok. revert s. induction ls as [|ev rest IH]; intros s.
  - simpl. destruct fin; split; reflexivity.
  - unfold delivered_objects. simpl process_lines.
    destruct (is_delivered (ev_type ev)) eqn:Hd.
    + rewrite filter_cons_True by exact Hd.
      pose proof (Hok (ev_object ev) s) as Hcb.
      destruct (handle_single_item (ev_object ev) s) as [s1 [e|]]; [discriminate Hcb|].
      destruct (IH s1) as [IHc IHr].
      destruct (process_lines St handle_single_item rest fin s1) as [[s2 t] r].
      simpl in *. split; [|exact IHr]. unfold item_callbacks at 1. simpl.
      f_equal. exact IHc.
    + rewrite filter_cons_False by (rewrite Hd; discriminate).
      destruct (IH s) as [IHc IHr].
      destruct (process_lines St handle_single_item rest fin s) as [[s2 t] r].
      simpl in *. split; [exact IHc | exact IHr].
Qed.

(** X11. The handler of [AsyncResourceHandler.async_process_items] never
    requests a new watch and has no error callback: an exception from the
    stream leaves it once the response is closed.  When
    [handle_single_item] does not raise, every [ADDED]/[MODIFIED] event of
    the response is handed to it, in order, wherever events of other types
    occur in the stream, the first position included. *)
Theorem X11_async_handler_delivers_all_and_never_restarts
    St handle_single_item resp s :
  list_calls (snd (fst (async_handle_response St handle_single_item resp s))) = []
  /\ error_reports (snd (fst (async_handle_response St handle_single_item resp s))) = []
  /\ ((forall i s0, snd (handle_single_item i s0) = None) ->
      item_callbacks (snd (fst (async_handle_response St handle_single_item resp s)))
        = delivered_objects (lines resp)
      /\ snd (async_handle_response St handle_single_item resp s)
         = ending_result (ending_of resp)).
Proof.
  unfold async_handle_response.
  pose proof (process_lines_in_loop St handle_single_item (lines resp) (ending_of resp) s)
    as Hloop.
  pose proof (process_lines_all St handle_single_item (lines resp) (ending_of resp) s) as Hall.
  destruct (process_lines St handle_single_item (lines resp) (ending_of resp) s)
    as [[s1 t1] r1].
  simpl in Hloop, Hall.
  destruct r1 as [e|]; simpl.
  - rewrite list_calls_app, error_reports_app, item_callbacks_app.
    rewrite (in_loop_no_list_calls _ Hloop), (in_loop_no_error_reports _ Hloop).
    repeat split; try reflexivity.
    + destruct (Hall H) as [Hc _]. rewrite Hc. simpl. apply app_nil_r.
    + destruct (Hall H) as [_ Hr]. exact Hr.
  - rewrite list_calls_app, error_reports_app, item_callbacks_app.
    rewrite (in_loop_no_list_calls _ Hloop), (in_loop_no_error_reports _ Hloop).
    repeat split; try reflexivity.
    + destruct (Hall H) as [Hc _]. rewrite Hc. simpl. apply app_nil_r.
    + destruct (Hall H) as [_ Hr]. exact Hr.
Qed.

Lemma X11_witness :
  item_callbacks
    (snd (fst (async_handle_response (list exn) note_item
                 {| lines := [deleted_x; added_y]; ending_of := EndOfStream |} [])))
    = [ev_object added_y].
Proof.
  exact (proj1 (proj2 (proj2 (X11_async_handler_delivers_all_and_never_restarts
                                (list exn) note_item
                                {| lines := [deleted_x; added_y]; ending_of := EndOfStream |}
                                [])) (fun _ _ => eq_refl))).
Defined.

End InitializerExtras.

(** ** Properties of main.py *)

Module MainExtras.
Import Labelizer LabelizerProofs LabelizerExtras Notions Fixtures.

Lemma for_each_inherited_result w self ls h :
  handle_item (handler self) = default_handle_item ->
  Forall (fun l => is_Some (items h !! l)) ls ->
  (snd (for_each (loop_body w self) ls h) = inl tt <->
   Forall (fun l => exists it, items h !! l = Some it /\
                               gate h (initializers (metadata it)) (initializer_name self)
                               = false) ls).
Proof.
  intros Hd Hall. induction Hall as [|l ls [it Hit] _ IH].
  - simpl. split; [constructor | reflexivity].
  - rewrite for_each_cons.
    destruct (gate h (initializers (metadata it)) (initializer_name self)) eqn:Hg.
    + rewrite (loop_body_raise w self l h it h (AttributeError "metadtata") Hit Hg).
      * simpl. split; [discriminate|]. intros Hf. inversion Hf as [|? ? (it' & Hit' & Hg') _].
        rewrite Hit in Hit'. injection Hit' as <-. rewrite Hg in Hg'. discriminate Hg'.
      * rewrite Hd. unfold default_handle_item. rewrite Hit. reflexivity.
      * intros st H. discriminate H.
    + rewrite (loop_body_skip w self l h it Hit Hg).
      destruct (for_each (loop_body w self) ls h) as [[h2 t2] r]. simpl in *.
      rewrite IH. split.
      * intros Hf. constructor; [exists it; split; assumption | exact Hf].
      * intros Hf. inversion Hf. assumption.
Qed.

Lemma main_unfold a w h ls :
  list_response w list_job_for_all_namespaces = inl ls ->
  Main.main a None w h =
    match for_each (loop_body w {| initializer_name := Main.name a; handler := JobHandler |})
                   ls h with
    | (h1, t, inl _) =>
        (h1, main_prefix a
               ++ map Main.Controller (EvList list_job_for_all_namespaces :: t)
               ++ [Main.PrintDone], None)
    | (h1, t, inr e) =>
        (h1, main_prefix a
               ++ map Main.Controller (EvList list_job_for_all_namespaces :: t), Some e)
    end.
Proof.
  intros Hls. unfold Main.main, main_prefix. simpl Main.for_handlers.
  unfold bind at 1. rewrite handle_update_unfold. simpl list_item_for_all_namespaces.
  rewrite Hls.
  destruct (for_each _ ls h) as [[h1 t] [[]|e]]; simpl.
  - rewrite app_nil_r, <- app_assoc. reflexivity.
  - rewrite <- app_assoc. reflexivity.
Qed.

Lemma main_prefix_not_done a : ~ In Main.PrintDone (main_prefix a).
Proof.
  unfold main_prefix. destruct (Main.kubernetes_level a), (Main.kubeconfig a); simpl;
    intuition discriminate.
Qed.

Lemma main_prefix_no_controller a ev : ~ In (Main.Controller ev) (main_prefix a).
Proof.
  unfold main_prefix. destruct (Main.kubernetes_level a), (Main.kubeconfig a); simpl;
    intuition discriminate.
Qed.

Lemma controller_not_done t : ~ In Main.PrintDone (map Main.Controller t).
Proof. intros Hin. apply in_map_iff in Hin. destruct Hin as (ev & Hev & _). discriminate Hev. Qed.

Lemma controller_in t ev : In (Main.Controller ev) (map Main.Controller t) -> In ev t.
Proof.
  intros Hin. apply in_map_iff in Hin. destruct Hin as (ev' & Hev & Hin).
  injection Hev as ->. exact Hin.
Qed.

Lemma no_updates_not_in t m n ns b : updates t = [] -> ~ In (EvUpdate m n ns b) t.
Proof.
  intros Hupd Hin. induction t as [|ev t IHt]; [exact Hin|].
  unfold updates in Hupd. simpl in Hupd.
  destruct ev; simpl in Hupd; try discriminate Hupd;
    (destruct Hin as [Heq | Hin]; [discriminate Heq | exact (IHt Hupd Hin)]).
Qed.

(** X12. The program as [main.py] wires it (one [LabelController] over
    [JobHandler], whose [handle_item] is the inherited one) never sends an
    update and leaves every listed job as it is.  It reaches ["Done."]
    exactly when none of the listed jobs is awaiting this initializer; with
    one that is, it ends with the exception of the inherited handler. *)
Theorem X12_main_finishes_only_when_nothing_is_eligible a w h ls :
  list_response w list_job_for_all_namespaces = inl ls ->
  Forall (fun l => is_Some (items h !! l)) ls ->
  fst (fst (Main.main a None w h)) = h
  /\ (forall m n ns b,
        ~ In (Main.Controller (EvUpdate m n ns b)) (snd (fst (Main.main a None w h))))
  /\ (In Main.PrintDone (snd (fst (Main.main a None w h))) <->
      Forall (fun l => exists it, items h !! l = Some it /\
                                  gate h (initializers (metadata it)) (Main.name a) = false) ls)
  /\ (snd (Main.main a None w h) = None <->
      In Main.PrintDone (snd (fst (Main.main a None w h)))).
Proof.
  intros Hls Hall. rewrite (main_unfold a w h ls Hls).
  set (ctl := {| initializer_name := Main.name a; handler := JobHandler |}).
  destruct (for_each_inherited w ctl ls h eq_refl) as [Hh Hupd].
  pose proof (for_each_inherited_result w ctl ls h eq_refl Hall) as Hres.
  destruct (for_each (loop_body w ctl) ls h) as [[h1 t] r].
  unfold trace_of in Hupd. simpl in Hh, Hupd, Hres. subst h1.
  assert (Hnoupd : forall tl m n ns b,
             ~ In (Main.Controller (EvUpdate m n ns b)) tl ->
             ~ In (Main.Controller (EvUpdate m n ns b))
                 (main_prefix a
                    ++ map Main.Controller (EvList list_job_for_all_namespaces :: t) ++ tl)).
  { intros tl m n ns b Htl Hin. rewrite !in_app_iff in Hin.
    destruct Hin as [Hin | [Hin | Hin]].
    - exact (main_prefix_no_controller a _ Hin).
    - apply controller_in in Hin. destruct Hin as [Hin | Hin]; [discriminate Hin|].
      exact (no_updates_not_in t m n ns b Hupd Hin).
    - exact (Htl Hin). }
  assert (Hnodone : ~ In Main.PrintDone
                      (main_prefix a
                         ++ map Main.Controller (EvList list_job_for_all_namespaces :: t))).
  { intros Hin. rewrite in_app_iff in Hin. destruct Hin as [Hin | Hin].
    - exact (main_prefix_not_done a Hin).
    - exact (controller_not_done _ Hin). }
  destruct r as [[]|e]; cbn [fst snd].
  - split; [reflexivity|]. split; [|split].
    + intros m n ns b. apply Hnoupd. simpl. intros [H | H]; [discriminate H | exact H].
    + rewrite <- Hres. split; [reflexivity|]. intros _.
      rewrite !in_app_iff. right. right. left. reflexivity.
    + split; [|reflexivity]. intros _.
      rewrite !in_app_iff. right. right. left. reflexivity.
  - split; [reflexivity|]. split; [|split].
    + intros m n ns b Hin. apply (Hnoupd [] m n ns b); [intros H; exact H|].
      rewrite app_nil_r. exact Hin.
    + rewrite <- Hres. split; [|discriminate]. intros Hin. exfalso. exact (Hnodone Hin).
    + split; [discriminate|]. intros Hin. exfalso. exact (Hnodone Hin).
Qed.

Lemma X12_witness :
  snd (Main.main {| Main.kubeconfig := true; Main.name := "initA"; Main.verbose := 1 |}
         None (api [2%positive; 4%positive]) store0) = None <->
  In Main.PrintDone
     (snd (fst (Main.main {| Main.kubeconfig := true; Main.name := "initA"; Main.verbose := 1 |}
                  None (api [2%positive; 4%positive]) store0))).
Proof.
  apply (X12_main_finishes_only_when_nothing_is_eligible
           {| Main.kubeconfig := true; Main.name := "initA"; Main.verbose := 1 |}
           (api [2%positive; 4%positive]) store0 [2%positive; 4%positive] eq_refl).
  repeat constructor; vm_compute; eexists; reflexivity.
Defined.

End MainExtras.
